(** * Markdown Todo: task documents, their reconciliation and recurrence

    A shallow embedding of the task-document core of the Markdown Todo
    application: the constants of [lib/constants], the raw-document route
    [app/api/v1/projects/[projectId]/raw/route.ts] with its task
    synchronisation, and the parser, renderer and recurrence rule that the
    route consumes.

    A text is a [string] holding its UTF-8 bytes; JavaScript [Map]s are
    association lists that keep insertion order, because the route iterates
    over them and the order of its store calls is observable.  A call to the
    database or to the file system may reject: every such call goes through
    an oracle that says, from the calls made so far, whether it does. *)

From Stdlib Require Import String Ascii List Bool Arith Lia DecimalString.
Import ListNotations.
Open Scope string_scope.
Open Scope list_scope.

Set Implicit Arguments.
Set Warnings "-register-all".

(* ================================================================== *)
(** * Part I: definitions                                              *)
(* ================================================================== *)

(** ** The task model ([lib/types], as exercised by the schema tests) *)

Inductive TaskStatus := todo | doing | done.

Inductive RepeatFrequency := daily | weekly | monthly.

Inductive Task := mkTask {
  id : string;
  content : string;
  status : TaskStatus;
  dueDate : option string;
  repeatFrequency : option RepeatFrequency;
  rawLine : string;
  lineNumber : nat;
  parentId : option string;
  subtasks : list Task
}.

Record Project := mkProject {
  projectId : string;
  title : string;
  tasks : list Task;
  path : string
}.

Definition status_eqb (a b : TaskStatus) : bool :=
  match a, b with
  | todo, todo | doing, doing | done, done => true
  | _, _ => false
  end.

(** Document order of a forest: every task, followed by its subtasks. *)
Fixpoint preorder_task (t : Task) : list Task :=
  t :: flat_map preorder_task (subtasks t).

Definition preorder (ts : list Task) : list Task := flat_map preorder_task ts.

(** ** Induction over tasks and forests *)

Section TaskInduction.

Variable P : Task -> Prop.
Hypothesis step : forall t, Forall P (subtasks t) -> P t.

Fixpoint Task_forest_ind (t : Task) : P t :=
  step t
    ((fix all (ts : list Task) : Forall P ts :=
        match ts with
        | [] => Forall_nil P
        | t' :: ts' => Forall_cons t' (Task_forest_ind t') (all ts')
        end) (subtasks t)).

End TaskInduction.

(** The node reached from the roots by a sequence of sibling indices. *)
Fixpoint node_at (p : list nat) (ts : list Task) : option Task :=
  match p with
  | [] => None
  | i :: p' =>
      match nth_error ts i with
      | None => None
      | Some t => match p' with [] => Some t | _ => node_at p' (subtasks t) end
      end
  end.

(** ** JavaScript [Map] with string keys

    [set] overwrites the value of a key already present and leaves the key at
    its first position; a new key goes to the end.  Iteration ([for ... of])
    visits the entries from first to last. *)

Module JsMap.

Definition t (V : Type) := list (string * V).

Definition empty {V} : t V := [].

Fixpoint set {V} (k : string) (v : V) (m : t V) : t V :=
  match m with
  | [] => [(k, v)]
  | (k', v') :: m' =>
      if String.eqb k' k then (k', v) :: m' else (k', v') :: set k v m'
  end.

Fixpoint get {V} (k : string) (m : t V) : option V :=
  match m with
  | [] => None
  | (k', v') :: m' => if String.eqb k' k then Some v' else get k m'
  end.

Definition has {V} (k : string) (m : t V) : bool :=
  match get k m with Some _ => true | None => false end.

Definition keys {V} (m : t V) : list string := map fst m.

End JsMap.

(** ** The raw-document route, [PUT /api/v1/projects/[projectId]/raw] *)

(** Values of a request body after [request.json()]. *)
Inductive JsValue :=
| JNull
| JBool (b : bool)
| JNumber (n : nat)
| JString (s : string)
| JArray (l : list JsValue)
| JObject (fields : list (string * JsValue)).

(** What a property read or a destructuring yields: a value or [undefined]. *)
Inductive JsSlot :=
| Undefined
| Defined (v : JsValue).

Fixpoint assoc_get (k : string) (fields : list (string * JsValue)) : option JsValue :=
  match fields with
  | [] => None
  | (k', v) :: rest => if String.eqb k' k then Some v else assoc_get k rest
  end.

(** [const { content } = body]: destructuring [null] raises a [TypeError];
    an object yields its own [content] property; any other value has no such
    property. *)
Definition destructure_content (body : JsValue) : option JsSlot :=
  match body with
  | JNull => None
  | JObject fields =>
      Some (match assoc_get "content" fields with
            | Some v => Defined v
            | None => Undefined
            end)
  | _ => Some Undefined
  end.

(** [typeof content], as far as the route looks at it. *)
Definition as_string (c : JsSlot) : option string :=
  match c with
  | Defined (JString s) => Some s
  | _ => None
  end.

(** The argument object of [updateTask]: exactly the four properties the
    route writes into the object literal. *)
Record TaskUpdate := mkTaskUpdate {
  u_content : string;
  u_status : TaskStatus;
  u_dueDate : option string;
  u_repeatFrequency : option RepeatFrequency
}.

(** Calls the route makes that are observable from outside: the parser call
    and every call that changes the database or the file system. *)
Inductive Call :=
| ParseMarkdown (pid content path : string)
| DeleteTask (taskId : string)
| UpdateTask (taskId : string) (u : TaskUpdate)
| AddTask (pid content : string) (st : TaskStatus) (due : option string)
          (parent : option string) (rep : option RepeatFrequency)
| WriteFile (filePath content : string).

Definition is_mutation (c : Call) : bool :=
  match c with
  | ParseMarkdown _ _ _ => false
  | _ => true
  end.

Definition is_delete (c : Call) : bool :=
  match c with
  | DeleteTask _ => true
  | _ => false
  end.

(** The error the parser raises: the 1-based line and a message. *)
Record ParseValidationError := mkParseValidationError {
  pve_line : nat;
  pve_message : string
}.

(** What can be thrown inside the route's [try] block. *)
Inductive Exn :=
| SyntaxError                       (* request.json() on a malformed body *)
| TypeError                         (* destructuring null *)
| ParseError (e : ParseValidationError)
| Rejected (c : Call).              (* a store or file call that rejects *)

(** Whether a call rejects, given the calls made before it. *)
Definition StoreOracle := list Call -> Call -> bool.

(** The store that never rejects. *)
Definition accepting : StoreOracle := fun _ _ => false.

Inductive ResponseBody :=
| ErrorBody (error : option string)  (* { error: ... } *)
| SuccessBody.                       (* { success: true } *)

Record Response := mkResponse {
  resp_status : nat;
  resp_body : ResponseBody
}.

(** [NextResponse.json(body)] answers 200 unless a status is given. *)
Definition json_error (msg : option string) (st : nat) : Response :=
  mkResponse st (ErrorBody msg).

Definition json_success : Response := mkResponse 200 SuccessBody.

(** A small monad for the handler: a computation appends to the log of calls
    and either goes on with a value, returns a response early, or throws. *)
Inductive Outcome (A : Type) :=
| Next (a : A)
| Return (r : Response)
| Throw (e : Exn).

Arguments Next {A} a.
Arguments Return {A} r.
Arguments Throw {A} e.

Definition Handler (A : Type) := list Call -> Outcome A * list Call.

Definition ret {A} (a : A) : Handler A := fun log => (Next a, log).

Definition bind {A B} (m : Handler A) (k : A -> Handler B) : Handler B :=
  fun log =>
    match m log with
    | (Next a, log') => k a log'
    | (Return r, log') => (Return r, log')
    | (Throw e, log') => (Throw e, log')
    end.

Definition respond {A} (r : Response) : Handler A := fun log => (Return r, log).

Definition throw {A} (e : Exn) : Handler A := fun log => (Throw e, log).

(** [await deleteTask(...)] and the like: the call is made, and the handler
    goes on only if it does not reject. *)
Definition call (rejects : StoreOracle) (c : Call) : Handler unit :=
  fun log =>
    if rejects log c then (Throw (Rejected c), log ++ [c])
    else (Next tt, log ++ [c]).

(** The parser call is noted in the log; how it ends is the parser's result. *)
Definition note (c : Call) : Handler unit := fun log => (Next tt, log ++ [c]).

Notation "x <- m ;; k" := (bind m (fun x => k))
  (at level 61, m at next level, right associativity).
Notation "m ;;; k" := (bind m (fun _ => k))
  (at level 61, right associativity).

(** [for (const x of xs) { body }] *)
Fixpoint for_of {A} (xs : list A) (body : A -> Handler unit) : Handler unit :=
  match xs with
  | [] => ret tt
  | x :: xs' => body x ;;; for_of xs' body
  end.

(** [try { m } catch (error) { return h }] *)
Definition try_catch (m : Handler Response) (h : Exn -> Response)
  : Response * list Call :=
  match m [] with
  | (Next r, log) => (r, log)
  | (Return r, log) => (r, log)
  | (Throw e, log) => (h e, log)
  end.

(** [mapExistingTasks] and [mapNewTasks]: the same recursive walk, each into
    its own map.  A task is entered before its subtasks. *)
Fixpoint mapTask (task : Task) (m : JsMap.t Task) {struct task} : JsMap.t Task :=
  fold_left (fun acc sub => mapTask sub acc) (subtasks task)
            (JsMap.set (id task) task m).

Definition mapTasks (ts : list Task) (m : JsMap.t Task) : JsMap.t Task :=
  fold_left (fun acc t => mapTask t acc) ts m.

Definition mapExistingTasks := mapTasks.
Definition mapNewTasks := mapTasks.

(** The two synchronisation loops of the route (source lines 197 to 226). *)
Definition deleteRemoved (rejects : StoreOracle)
  (existingTaskMap newTaskMap : JsMap.t Task) : Handler unit :=
  for_of existingTaskMap (fun entry =>
    let '(taskId, _) := entry in
    if negb (JsMap.has taskId newTaskMap) then call rejects (DeleteTask taskId)
    else ret tt).

Definition addOrUpdate (rejects : StoreOracle) (pid : string)
  (existingTaskMap newTaskMap : JsMap.t Task) : Handler unit :=
  for_of newTaskMap (fun entry =>
    let '(taskId, newTask) := entry in
    if JsMap.has taskId existingTaskMap then
      call rejects (UpdateTask taskId
              (mkTaskUpdate (content newTask) (status newTask)
                            (dueDate newTask) (repeatFrequency newTask)))
    else
      call rejects
           (AddTask pid (content newTask) (status newTask) (dueDate newTask)
                    (parentId newTask) (repeatFrequency newTask))).

Definition syncTasks (rejects : StoreOracle) (pid : string)
  (existing incoming : list Task) : Handler unit :=
  let existingTaskMap := mapExistingTasks existing JsMap.empty in
  let newTaskMap := mapNewTasks incoming JsMap.empty in
  deleteRemoved rejects existingTaskMap newTaskMap ;;;
  addOrUpdate rejects pid existingTaskMap newTaskMap.

(** The calls the synchronisation makes, in order, the rejected one last. *)
Definition sync_log (rejects : StoreOracle) (pid : string)
  (existing incoming : list Task) : list Call :=
  snd (syncTasks rejects pid existing incoming []).

(** The collaborators of the route that live outside this file. *)
Record ValidationResult := mkValidationResult {
  valid : bool;
  error : option string
}.

Record Env := mkEnv {
  validateProjectId : string -> ValidationResult;
  NEXT_PUBLIC_SUPABASE_URL : option string;
  NEXT_PUBLIC_SUPABASE_ANON_KEY : option string;
  SUPABASE_SERVICE_ROLE_KEY : option string;
  USE_SUPABASE : option string;
  auth : option string;                      (* session?.user?.id *)
  getProject : string -> string -> option Project;
  parseMarkdown : string -> string -> string -> ParseValidationError + Project;
  getUserDataDir : option string -> string;
  path_join : string -> string -> string;
  validateFilePath : string -> bool;
  existsSync : string -> bool;
  rejects : StoreOracle                      (* the database and the file system *)
}.

(** Truthiness of an environment variable or of a user id. *)
Definition truthy (v : option string) : bool :=
  match v with
  | Some s => negb (String.eqb s "")
  | None => false
  end.

Definition useSupabase (env : Env) : bool :=
  truthy (NEXT_PUBLIC_SUPABASE_URL env)
  && truthy (NEXT_PUBLIC_SUPABASE_ANON_KEY env)
  && truthy (SUPABASE_SERVICE_ROLE_KEY env)
  && match USE_SUPABASE env with
     | Some s => String.eqb s "true"
     | None => false
     end.

Section Route.

Variable env : Env.

(** The body of the [try] block of [PUT]. *)
Definition PUT_try (pid : string) (body : option JsValue) : Handler Response :=
  let projectIdValidation := validateProjectId env pid in
  if negb (valid projectIdValidation) then
    respond (json_error (error projectIdValidation) 400)
  else
  body <- match body with
          | Some b => ret b
          | None => throw SyntaxError
          end ;;
  content <- match destructure_content body with
             | Some c => ret c
             | None => throw TypeError
             end ;;
  match as_string content with
  | None => respond (json_error (Some "Content must be a string") 400)
  | Some content =>
    if useSupabase env then
      let userId := auth env in
      if negb (truthy userId) then respond (json_error (Some "Unauthorized") 401)
      else
      let userId := match userId with Some u => u | None => "" end in
      match getProject env pid userId with
      | None => respond (json_error (Some "Project not found") 404)
      | Some project =>
          note (ParseMarkdown pid content "") ;;;
          parsedProject <- match parseMarkdown env pid content "" with
                           | inl e => throw (ParseError e)
                           | inr p => ret p
                           end ;;
          syncTasks (rejects env) pid (tasks project) (tasks parsedProject) ;;;
          ret json_success
      end
    else
      let userId := auth env in
      let dataDir := getUserDataDir env userId in
      let filePath := path_join env dataDir (pid ++ ".md")%string in
      if negb (validateFilePath env filePath) then
        respond (json_error (Some "Invalid file path") 400)
      else if negb (existsSync env filePath) then
        respond (json_error (Some "Project not found") 404)
      else
        call (rejects env) (WriteFile filePath content) ;;;
        ret json_success
  end.

Definition PUT (pid : string) (body : option JsValue) : Response * list Call :=
  try_catch (PUT_try pid body)
            (fun _ => json_error (Some "Failed to save project content") 500).

End Route.

(** ** Vocabulary for statements about the synchronisation *)

(** Some task of the forest, at any depth, carries the id [k]. *)
Definition has_id (ts : list Task) (k : string) : Prop :=
  exists t, In t (preorder ts) /\ id t = k.

(** The task the route keeps for an id of the parsed document: the entry of
    [newTaskMap] (the last task in document order carrying that id). *)
Definition incoming_entry (incoming : list Task) (k : string) : option Task :=
  JsMap.get k (mapNewTasks incoming JsMap.empty).

Definition update_of (t : Task) : TaskUpdate :=
  mkTaskUpdate (content t) (status t) (dueDate t) (repeatFrequency t).

Definition add_of (pid : string) (t : Task) : Call :=
  AddTask pid (content t) (status t) (dueDate t) (parentId t) (repeatFrequency t).

(** The store call, if any, that names the task [k]. *)
Definition addresses (k : string) (c : Call) : bool :=
  match c with
  | DeleteTask i | UpdateTask i _ => String.eqb i k
  | _ => false
  end.

(** Matching by position, as a reading of the synchronisation: two nodes
    reached by the same path of sibling indices are paired, the existing id
    is the one updated; unpaired existing nodes are deleted and unpaired
    incoming nodes are created. *)
Definition matches_by_position (rejects : StoreOracle) (pid : string)
  (existing incoming : list Task) : Prop :=
  let log := sync_log rejects pid existing incoming in
  (forall p e n, node_at p existing = Some e -> node_at p incoming = Some n ->
                 In (UpdateTask (id e) (update_of n)) log
                 /\ ~ In (DeleteTask (id e)) log)
  /\ (forall p e, node_at p existing = Some e -> node_at p incoming = None ->
                  In (DeleteTask (id e)) log)
  /\ (forall p n, node_at p incoming = Some n -> node_at p existing = None ->
                  In (add_of pid n) log).

(** Two small forests: a stored project [A [A1], B] and an edited document
    [A, B] whose ids follow document order. *)
Definition plain_task (i c : string) (ln : nat) (parent : option string)
  (subs : list Task) : Task :=
  mkTask i c todo None None ("- [ ] " ++ c)%string ln parent subs.

Definition stored_forest : list Task :=
  [ plain_task "p-1" "A" 3 None [ plain_task "p-2" "A1" 4 (Some "p-1") [] ];
    plain_task "p-3" "B" 5 None [] ].

Definition edited_forest : list Task :=
  [ plain_task "p-1" "A" 3 None [];
    plain_task "p-2" "B" 4 None [] ].

(** The same forest with other parents: every task gets the [parentId]
    that [g] gives for its id. *)
Fixpoint reparent_task (g : string -> option string) (t : Task) : Task :=
  mkTask (id t) (content t) (status t) (dueDate t) (repeatFrequency t)
         (rawLine t) (lineNumber t) (g (id t))
         (map (reparent_task g) (subtasks t)).

Definition reparent (g : string -> option string) (ts : list Task) : list Task :=
  map (reparent_task g) ts.

(** The same map with [f] applied to every value. *)
Definition map_values (f : Task -> Task) (m : JsMap.t Task) : JsMap.t Task :=
  map (fun kv => (fst kv, f (snd kv))) m.



(** The calls of a plan that are made when they are issued one after the
    other: all of them up to the first that rejects, that one included. *)
Fixpoint until_rejected (rejects : StoreOracle) (log plan : list Call) : list Call :=
  match plan with
  | [] => []
  | c :: rest =>
      c :: (if rejects log c then [] else until_rejected rejects (log ++ [c]) rest)
  end.

(** The first call of the plan that rejects, if any does. *)
Fixpoint first_rejected (rejects : StoreOracle) (log plan : list Call) : option Call :=
  match plan with
  | [] => None
  | c :: rest =>
      if rejects log c then Some c else first_rejected rejects (log ++ [c]) rest
  end.

(** The call the second loop makes for an entry of [newTaskMap]. *)
Definition upsert (pid : string) (existingTaskMap : JsMap.t Task)
  (entry : string * Task) : Call :=
  let '(taskId, newTask) := entry in
  if JsMap.has taskId existingTaskMap then
    UpdateTask taskId (mkTaskUpdate (content newTask) (status newTask)
                                    (dueDate newTask) (repeatFrequency newTask))
  else
    AddTask pid (content newTask) (status newTask) (dueDate newTask)
            (parentId newTask) (repeatFrequency newTask).

(** The keys of [existingTaskMap] that [newTaskMap] does not have. *)
Definition removed_ids (existingTaskMap newTaskMap : JsMap.t Task) : list string :=
  filter (fun k => negb (JsMap.has k newTaskMap)) (JsMap.keys existingTaskMap).

(** The calls the two loops would make if none rejected. *)
Definition sync_plan (pid : string) (existing incoming : list Task) : list Call :=
  let existingTaskMap := mapExistingTasks existing JsMap.empty in
  let newTaskMap := mapNewTasks incoming JsMap.empty in
  map DeleteTask (removed_ids existingTaskMap newTaskMap)
  ++ map (upsert pid existingTaskMap) newTaskMap.

(** [map.set(task.id, task)] *)
Definition set_task (m : JsMap.t Task) (t : Task) : JsMap.t Task :=
  JsMap.set (id t) t m.

(** The ids of a document in the order of their first appearance. *)
Fixpoint first_occurrences (seen ids : list string) : list string :=
  match ids with
  | [] => []
  | k :: rest =>
      if existsb (String.eqb k) seen then first_occurrences seen rest
      else k :: first_occurrences (k :: seen) rest
  end.

Definition ids_in_order (ts : list Task) : list string :=
  first_occurrences [] (map id (preorder ts)).

(** The body's [content] is there and is a string. *)
Definition content_is_string (body : JsValue) : bool :=
  match destructure_content body with
  | Some c =>
      match as_string c with
      | Some _ => true
      | None => false
      end
  | None => false
  end.

(** ** Regular expressions of [lib/constants]

    Each pattern is embedded as a matcher anchored at the head of a text: it
    yields the captures and the text after the match.  An unanchored pattern
    is then searched from left to right, as [String.prototype.match] and
    [replace] do.  Texts are UTF-8, so a character of a class may take
    several bytes: [\d] is an ASCII digit; [\s] is one of the white-space
    and line-terminator characters of ECMAScript, listed below by their
    encodings; [.] is any code unit that does not begin a line terminator. *)

Notation "'let?' x ':=' e 'in' k" :=
  (match e with Some x => k | None => None end)
  (at level 10, x pattern, e at level 100, k at level 200).

Definition is_digit (c : ascii) : bool :=
  ((48 <=? nat_of_ascii c) && (nat_of_ascii c <=? 57))%nat.

(** The characters of [\s] (and of [String.prototype.trim]): tab, line
    feed, vertical tab, form feed, carriage return, space, U+00A0, U+1680,
    U+2000 to U+200A, U+2028, U+2029, U+202F, U+205F, U+3000 and U+FEFF. *)
Definition WHITE_SPACE : list string :=
  [ String "009" ""; String "010" ""; String "011" ""; String "012" "";
    String "013" ""; String "032" "";
    String "194" (String "160" "");
    String "225" (String "154" (String "128" ""));
    String "226" (String "128" (String "128" ""));
    String "226" (String "128" (String "129" ""));
    String "226" (String "128" (String "130" ""));
    String "226" (String "128" (String "131" ""));
    String "226" (String "128" (String "132" ""));
    String "226" (String "128" (String "133" ""));
    String "226" (String "128" (String "134" ""));
    String "226" (String "128" (String "135" ""));
    String "226" (String "128" (String "136" ""));
    String "226" (String "128" (String "137" ""));
    String "226" (String "128" (String "138" ""));
    String "226" (String "128" (String "168" ""));
    String "226" (String "128" (String "169" ""));
    String "226" (String "128" (String "175" ""));
    String "226" (String "129" (String "159" ""));
    String "227" (String "128" (String "128" ""));
    String "239" (String "187" (String "191" "")) ].

(** The line terminators: line feed, carriage return, U+2028 and U+2029. *)
Definition LINE_TERMINATORS : list string :=
  [ String "010" ""; String "013" "";
    String "226" (String "128" (String "168" ""));
    String "226" (String "128" (String "169" "")) ].

(** A literal at the head of the text. *)
Fixpoint strip_prefix (p s : string) : option string :=
  match p with
  | EmptyString => Some s
  | String a p' =>
      match s with
      | String b s' => if Ascii.eqb a b then strip_prefix p' s' else None
      | EmptyString => None
      end
  end.

(** [\d{n}] *)
Fixpoint take_digits (n : nat) (s : string) : option (string * string) :=
  match n with
  | 0 => Some ("", s)
  | S n' =>
      match s with
      | String c s' =>
          if is_digit c then
            let? (ds, rest) := take_digits n' s' in Some (String c ds, rest)
          else None
      | EmptyString => None
      end
  end.

(** The first of the given sequences that the text starts with, and the
    text after it. *)
Fixpoint strip_any (ps : list string) (s : string) : option (string * string) :=
  match ps with
  | [] => None
  | p :: ps' =>
      match strip_prefix p s with
      | Some rest => Some (p, rest)
      | None => strip_any ps' s
      end
  end.

(** A class repeated greedily: the characters taken and the text after
    them.  The fuel bounds the number of characters. *)
Fixpoint span_of (ps : list string) (fuel : nat) (s : string) : string * string :=
  match fuel with
  | 0 => ("", s)
  | S fuel' =>
      match strip_any ps s with
      | Some (p, rest) =>
          let (sp, r) := span_of ps fuel' rest in ((p ++ sp)%string, r)
      | None => ("", s)
      end
  end.

(** The group of leading whitespace, [\s] repeated greedily. *)
Definition span_space (s : string) : string * string :=
  span_of WHITE_SPACE (String.length s) s.

(** The group of [.] repeated greedily: the text up to a line terminator. *)
Fixpoint dot_star (s : string) : string :=
  match s with
  | String c s' =>
      match strip_any LINE_TERMINATORS s with
      | Some _ => ""
      | None => String c (dot_star s')
      end
  | EmptyString => ""
  end.

(** [TASK_LINE_PATTERN]: leading whitespace (captured), the literal [- [],
    an [x] or a space (captured), the literal [] ], and the rest of the line
    (captured).  The captures are indent, checkbox state and content. *)
Definition TASK_LINE_PATTERN (line : string) : option (string * bool * string) :=
  let (indent, r0) := span_space line in
  let? r1 := strip_prefix "- [" r0 in
  let? (checked, r2) :=
    match r1 with
    | String c r =>
        if Ascii.eqb c "x" then Some (true, r)
        else if Ascii.eqb c " " then Some (false, r)
        else None
    | EmptyString => None
    end in
  let? r3 := strip_prefix "] " r2 in
  Some (indent, checked, dot_star r3).

(** [DUE_DATE_PATTERN = /#due:(\d{4}-\d{2}-\d{2})/], anchored: the date
    string and the text after the tag. *)
Definition DUE_DATE_PATTERN (s : string) : option (string * string) :=
  let? s1 := strip_prefix "#due:" s in
  let? (y, s2) := take_digits 4 s1 in
  let? s3 := strip_prefix "-" s2 in
  let? (m, s4) := take_digits 2 s3 in
  let? s5 := strip_prefix "-" s4 in
  let? (d, s6) := take_digits 2 s5 in
  Some ((y ++ "-" ++ m ++ "-" ++ d)%string, s6).

(** [REPEAT_FREQUENCY_PATTERN = /#repeat:(daily|weekly|monthly)/], anchored. *)
Definition REPEAT_FREQUENCY_PATTERN (s : string)
  : option (RepeatFrequency * string) :=
  let? s1 := strip_prefix "#repeat:" s in
  match strip_prefix "daily" s1 with
  | Some r => Some (daily, r)
  | None =>
      match strip_prefix "weekly" s1 with
      | Some r => Some (weekly, r)
      | None =>
          match strip_prefix "monthly" s1 with
          | Some r => Some (monthly, r)
          | None => None
          end
      end
  end.

(** [H1_HEADER_PATTERN = /^# /] and [H2_HEADER_PATTERN = /^## /]: the text
    after the marker. *)
Definition H1_HEADER_PATTERN (line : string) : option string :=
  strip_prefix "# " line.

Definition H2_HEADER_PATTERN (line : string) : option string :=
  strip_prefix "## " line.

Definition MAX_DUE_TAG_COUNT : nat := 1.
Definition MAX_REPEAT_TAG_COUNT : nat := 1.

(** The leftmost match of an unanchored pattern: the text before it, the
    capture, and the text after it. *)
Fixpoint search {A} (pat : string -> option (A * string)) (s : string)
  : option (string * A * string) :=
  match pat s with
  | Some (a, rest) => Some ("", a, rest)
  | None =>
      match s with
      | EmptyString => None
      | String c s' =>
          let? (pre, a, rest) := search pat s' in Some (String c pre, a, rest)
      end
  end.

(** [text.match(pattern)]: the capture of the leftmost match. *)
Definition exec {A} (pat : string -> option (A * string)) (s : string) : option A :=
  let? (_, a, _) := search pat s in Some a.

(** [text.replace(pattern, '')]: the text without its leftmost match. *)
Definition remove {A} (pat : string -> option (A * string)) (s : string) : string :=
  match search pat s with
  | Some (pre, _, rest) => (pre ++ rest)%string
  | None => s
  end.

(** The number of places of the text at which the pattern matches. *)
Fixpoint occurrences {A} (pat : string -> option (A * string)) (s : string) : nat :=
  (match pat s with Some _ => 1 | None => 0 end)
  + match s with
    | EmptyString => 0
    | String _ s' => occurrences pat s'
    end.

(** The month and day digit pairs of a captured date string lie in 01..12
    and 01..31. *)
Definition digit_value (c : ascii) : nat := nat_of_ascii c - 48.

Definition two_digits (s : string) : option nat :=
  match s with
  | String a (String b EmptyString) =>
      if is_digit a && is_digit b then Some (10 * digit_value a + digit_value b)
      else None
  | _ => None
  end.

Definition month_day_in_range (date : string) : bool :=
  match two_digits (substring 5 2 date), two_digits (substring 8 2 date) with
  | Some m, Some d => ((1 <=? m) && (m <=? 12) && (1 <=? d) && (d <=? 31))%nat
  | _, _ => false
  end.

(** A date string has the digit shape [dddd-dd-dd]. *)
Definition digit_shape (date : string) : bool :=
  match date with
  | String y1 (String y2 (String y3 (String y4 (String h1
      (String m1 (String m2 (String h2 (String d1 (String d2 EmptyString))))))))) =>
      is_digit y1 && is_digit y2 && is_digit y3 && is_digit y4
      && Ascii.eqb h1 "-" && is_digit m1 && is_digit m2
      && Ascii.eqb h2 "-" && is_digit d1 && is_digit d2
  | _ => false
  end.

(** ** Tag Extractor

    Modelled from the spec: the function of [lib/markdown] that pulls the
    inline tags out of a task's text is not part of the sources at hand; the
    patterns and the bounds it uses are the constants above.  A tag kind that
    appears more often than its bound is a validation error; otherwise the
    leftmost tag of each kind is extracted, both are removed from the text,
    and the text is trimmed. *)

Inductive ValidationError :=
| DuplicateDueTag
| DuplicateRepeatTag.

Record Tags := mkTags {
  tag_content : string;
  tag_dueDate : option string;
  tag_repeatFrequency : option RepeatFrequency
}.

(** [String.prototype.trim]: without the white space at both ends. *)
Definition trim_start (s : string) : string := snd (span_space s).

Definition is_blank (s : string) : bool := String.eqb (trim_start s) "".

Fixpoint trim_end (s : string) : string :=
  match s with
  | EmptyString => ""
  | String c s' => if is_blank s then "" else String c (trim_end s')
  end.

Definition trim (s : string) : string := trim_end (trim_start s).

Definition extractTags (text : string) : ValidationError + Tags :=
  if (MAX_DUE_TAG_COUNT <? occurrences DUE_DATE_PATTERN text)%nat then
    inl DuplicateDueTag
  else if (MAX_REPEAT_TAG_COUNT <? occurrences REPEAT_FREQUENCY_PATTERN text)%nat then
    inl DuplicateRepeatTag
  else
    inr (mkTags (trim (remove REPEAT_FREQUENCY_PATTERN (remove DUE_DATE_PATTERN text)))
                (exec DUE_DATE_PATTERN text)
                (exec REPEAT_FREQUENCY_PATTERN text)).

Definition validation_message (e : ValidationError) : string :=
  match e with
  | DuplicateDueTag => "Multiple #due tags"
  | DuplicateRepeatTag => "Multiple #repeat tags"
  end.

(** ** Line Classifier

    Modelled from the spec: the classifying function of [lib/markdown] is not
    part of the sources at hand; the patterns it tests are the constants
    above.  A section name is the text after the H2 marker; [Todo], [Doing]
    and [Done] name their status, any other name stands for [todo]. *)

Inductive Line :=
| Title (text : string)
| Section (name : string)
| TaskLine (indent : string) (checked : bool) (text : string)
| Other.

Definition classify (line : string) : Line :=
  match H1_HEADER_PATTERN line with
  | Some text => Title text
  | None =>
      match H2_HEADER_PATTERN line with
      | Some name => Section name
      | None =>
          match TASK_LINE_PATTERN line with
          | Some (indent, checked, text) => TaskLine indent checked text
          | None => Other
          end
      end
  end.

Definition section_status (name : string) : TaskStatus :=
  if String.eqb name "Doing" then doing
  else if String.eqb name "Done" then done
  else todo.

(** The length of a text in UTF-16 code units: one for each character, two
    for a character outside the basic plane (four bytes in UTF-8). *)
Fixpoint code_units (s : string) : nat :=
  match s with
  | EmptyString => 0
  | String c s' =>
      let n := nat_of_ascii c in
      ((if (128 <=? n) && (n <=? 191) then 0 else 1)
       + (if 240 <=? n then 1 else 0) + code_units s')%nat
  end.

(** Four characters of indent make one nesting level, rounded down. *)
Definition nesting_level (indent : string) : nat := code_units indent / 4.

(** ** Tree Builder

    Modelled from the spec: the parser of [lib/markdown] is not part of the
    sources at hand.  The builder keeps a stack of open tasks, innermost
    first; a frame holds the level of its task and the subtasks attached so
    far, latest first.  A task is handed to its parent (or to the roots) when
    its frame is popped, at which point its subtasks are complete. *)

Record Frame := mkFrame {
  f_level : nat;
  f_task : Task;
  f_kids : list Task
}.

Record Builder := mkBuilder {
  b_title : string;
  b_section : option TaskStatus;
  b_serial : nat;
  b_stack : list Frame;
  b_roots : list Task
}.

Definition with_subtasks (t : Task) (subs : list Task) : Task :=
  mkTask (id t) (content t) (status t) (dueDate t) (repeatFrequency t)
         (rawLine t) (lineNumber t) (parentId t) subs.

Definition close_frame (f : Frame) : Task := with_subtasks (f_task f) (rev (f_kids f)).

Definition add_kid (carry : option Task) (f : Frame) : Frame :=
  match carry with
  | Some t => mkFrame (f_level f) (f_task f) (t :: f_kids f)
  | None => f
  end.

Definition add_root (carry : option Task) (roots : list Task) : list Task :=
  match carry with
  | Some t => t :: roots
  | None => roots
  end.

(** Pop until the top frame has a level strictly below [l]; [carry] is the
    task just popped, on its way to the frame below. *)
Fixpoint settle (l : nat) (stack : list Frame) (carry : option Task)
  (roots : list Task) : list Frame * list Task :=
  match stack with
  | [] => ([], add_root carry roots)
  | f :: rest =>
      let f' := add_kid carry f in
      if (f_level f' <? l)%nat then (f' :: rest, roots)
      else settle l rest (Some (close_frame f')) roots
  end.

Definition pop_until (l : nat) (stack : list Frame) (roots : list Task)
  : list Frame * list Task :=
  settle l stack None roots.

Definition decimal (n : nat) : string :=
  NilEmpty.string_of_uint (Nat.to_uint n).

Definition task_status (checked : bool) (section : option TaskStatus) : TaskStatus :=
  if checked then done
  else match section with
       | Some s => s
       | None => todo
       end.

(** One line of the document, at its 1-based number. *)
Definition build_line (key : string) (b : Builder) (n : nat) (line : string)
  : ParseValidationError + Builder :=
  match classify line with
  | Title text =>
      inr (mkBuilder text (b_section b) (b_serial b) (b_stack b) (b_roots b))
  | Section name =>
      inr (mkBuilder (b_title b) (Some (section_status name)) (b_serial b)
                     (b_stack b) (b_roots b))
  | TaskLine indent checked text =>
      let (stack, roots) := pop_until (nesting_level indent) (b_stack b) (b_roots b) in
      let parent := hd_error stack in
      let level := match parent with
                   | Some p => S (f_level p)
                   | None => 0
                   end in
      match extractTags text with
      | inl e => inl (mkParseValidationError n (validation_message e))
      | inr tags =>
          let serial := S (b_serial b) in
          let task :=
            mkTask (key ++ "-" ++ decimal serial)%string (tag_content tags)
                   (task_status checked (b_section b))
                   (tag_dueDate tags) (tag_repeatFrequency tags)
                   line n
                   (option_map (fun p => id (f_task p)) parent) [] in
          inr (mkBuilder (b_title b) (b_section b) serial
                         (mkFrame level task [] :: stack) roots)
      end
  | Other => inr b
  end.

Fixpoint build_lines (key : string) (b : Builder) (n : nat) (lines : list string)
  : ParseValidationError + Builder :=
  match lines with
  | [] => inr b
  | line :: rest =>
      match build_line key b n line with
      | inl e => inl e
      | inr b' => build_lines key b' (S n) rest
      end
  end.

(** [content.split('\n')] *)
Fixpoint split_lines (s : string) : list string :=
  match s with
  | EmptyString => [""]
  | String c s' =>
      if Ascii.eqb c "010" then "" :: split_lines s'
      else match split_lines s' with
           | l :: ls => String c l :: ls
           | [] => [String c ""]
           end
  end.

(** Identity recovery against a previous forest: a task takes over the id
    of the task at the same position (same path of sibling indices), and
    [parentId] follows the recovered id of the parent. *)
Fixpoint recover_task (parent : option string) (old : option Task) (t : Task)
  {struct t} : Task :=
  let i := match old with
           | Some e => id e
           | None => id t
           end in
  let olds := match old with
              | Some e => subtasks e
              | None => []
              end in
  mkTask i (content t) (status t) (dueDate t) (repeatFrequency t)
         (rawLine t) (lineNumber t) parent
         ((fix zip (olds news : list Task) {struct news} : list Task :=
             match news with
             | [] => []
             | s :: news' =>
                 match olds with
                 | o :: olds' => recover_task (Some i) (Some o) s :: zip olds' news'
                 | [] => recover_task (Some i) None s :: zip [] news'
                 end
             end) olds (subtasks t)).

Fixpoint recover_ids (parent : option string) (olds news : list Task)
  {struct news} : list Task :=
  match news with
  | [] => []
  | s :: news' =>
      match olds with
      | o :: olds' => recover_task parent (Some o) s :: recover_ids parent olds' news'
      | [] => recover_task parent None s :: recover_ids parent [] news'
      end
  end.

(** [parseDocument(title, body, existing?)]: [key] is the string the
    project is known by; ids are derived from it and a serial counter, and
    it is the title of a document without an H1 line. *)
Definition parseDocument (key body : string) (existing : option (list Task))
  : ParseValidationError + Project :=
  match build_lines key (mkBuilder key None 0 [] []) 1 (split_lines body) with
  | inl e => inl e
  | inr b =>
      let (_, roots) := pop_until 0 (b_stack b) (b_roots b) in
      let forest := rev roots in
      inr (mkProject key (b_title b)
                     (match existing with
                      | Some old => recover_ids None old forest
                      | None => forest
                      end)
                     "")
  end.

(** The parser as the route calls it: [parseMarkdown(projectId, content, path)]. *)
Definition parseMarkdown_spec (pid content path : string)
  : ParseValidationError + Project :=
  match parseDocument pid content None with
  | inl e => inl e
  | inr p => inr (mkProject pid (title p) (tasks p) path)
  end.

(** ** Renderer

    Modelled from the spec: [lib/markdown-renderer] is not part of the
    sources at hand.  One H1 line, then one H2 section for each status that
    some top-level task has, in the order Todo, Doing, Done; a task is a
    checkbox line followed by its subtasks, one level deeper. *)

Definition frequency_name (f : RepeatFrequency) : string :=
  match f with
  | daily => "daily"
  | weekly => "weekly"
  | monthly => "monthly"
  end.

Definition section_name (s : TaskStatus) : string :=
  match s with
  | todo => "Todo"
  | doing => "Doing"
  | done => "Done"
  end.

Fixpoint spaces (n : nat) : string :=
  match n with
  | 0 => ""
  | S n' => String " " (spaces n')
  end.

Definition task_text (t : Task) : string :=
  (content t
   ++ match dueDate t with
      | Some d => " #due:" ++ d
      | None => ""
      end
   ++ match repeatFrequency t with
      | Some f => " #repeat:" ++ frequency_name f
      | None => ""
      end)%string.

Definition render_task_line (depth : nat) (t : Task) : string :=
  (spaces (4 * depth)
   ++ (if status_eqb (status t) done then "- [x] " else "- [ ] ")
   ++ task_text t)%string.

Fixpoint render_task (depth : nat) (t : Task) : list string :=
  render_task_line depth t :: flat_map (render_task (S depth)) (subtasks t).

Definition bucket (s : TaskStatus) (ts : list Task) : list Task :=
  filter (fun t => status_eqb (status t) s) ts.

Definition render_section (s : TaskStatus) (ts : list Task) : list string :=
  match bucket s ts with
  | [] => []
  | b => ("## " ++ section_name s)%string :: flat_map (render_task 0) b
  end.

Definition render_lines (title : string) (ts : list Task) : list string :=
  ("# " ++ title)%string
  :: render_section todo ts ++ render_section doing ts ++ render_section done ts.

Definition renderDocument (title : string) (ts : list Task) : string :=
  String.concat (String "010" "") (render_lines title ts).

(** The builder after a section line. *)
Definition set_section (b : Builder) (s : TaskStatus) : Builder :=
  mkBuilder (b_title b) (Some s) (b_serial b) (b_stack b) (b_roots b).

(** The document of the end-to-end scenario. *)
Definition sample_document : string :=
  String.concat (String "010" "")
    [ "# Proj"; "## Todo"; "- [ ] Buy milk #due:2025-11-23";
      "    - [ ] Pick brand"; "## Done"; "- [x] Setup" ].

(** ** Recurrence Engine

    Modelled from the spec: the code that creates the next occurrence of a
    completed repeating task is not part of the sources at hand (the README
    states the rule).  Dates are read from and written to the [YYYY-MM-DD]
    strings of the task model. *)

Record Date := mkDate {
  year : nat;
  month : nat;
  day : nat
}.

Definition is_leap_year (y : nat) : bool :=
  (((y mod 4 =? 0) && negb (y mod 100 =? 0)) || (y mod 400 =? 0))%nat.

Definition days_in_month (y m : nat) : nat :=
  match m with
  | 2 => if is_leap_year y then 29 else 28
  | 4 | 6 | 9 | 11 => 30
  | _ => 31
  end.

Definition valid_date (d : Date) : bool :=
  ((1 <=? month d) && (month d <=? 12)
   && (1 <=? day d) && (day d <=? days_in_month (year d) (month d)))%nat.

(** The day after [d]. *)
Definition next_day (d : Date) : Date :=
  if (day d <? days_in_month (year d) (month d))%nat then
    mkDate (year d) (month d) (S (day d))
  else if (month d <? 12)%nat then mkDate (year d) (S (month d)) 1
  else mkDate (S (year d)) 1 1.

Fixpoint add_days (n : nat) (d : Date) : Date :=
  match n with
  | 0 => d
  | S n' => add_days n' (next_day d)
  end.

(** One calendar month later, the day clamped to the length of that month. *)
Definition add_month (d : Date) : Date :=
  let (y, m) := if (month d <? 12)%nat then (year d, S (month d))
                else (S (year d), 1) in
  mkDate y m (Nat.min (day d) (days_in_month y m)).

Definition next_date (f : RepeatFrequency) (d : Date) : Date :=
  match f with
  | daily => add_days 1 d
  | weekly => add_days 7 d
  | monthly => add_month d
  end.

Definition digit_char (n : nat) : ascii := ascii_of_nat (48 + n).

Definition pad2 (n : nat) : string :=
  String (digit_char (n / 10 mod 10)) (String (digit_char (n mod 10)) "").

Definition pad4 (n : nat) : string :=
  String (digit_char (n / 1000 mod 10))
         (String (digit_char (n / 100 mod 10)) (pad2 n)).

Definition format_date (d : Date) : string :=
  (pad4 (year d) ++ "-" ++ pad2 (month d) ++ "-" ++ pad2 (day d))%string.

Definition parse_date (s : string) : option Date :=
  match s with
  | String y1 (String y2 (String y3 (String y4 (String _
      (String m1 (String m2 (String _ (String d1 (String d2 EmptyString))))))))) =>
      if digit_shape s then
        Some (mkDate (1000 * digit_value y1 + 100 * digit_value y2
                      + 10 * digit_value y3 + digit_value y4)
                     (10 * digit_value m1 + digit_value m2)
                     (10 * digit_value d1 + digit_value d2))
      else None
  | _ => None
  end.

Record TaskSkeleton := mkTaskSkeleton {
  sk_content : string;
  sk_status : TaskStatus;
  sk_dueDate : option string;
  sk_repeatFrequency : option RepeatFrequency;
  sk_parentId : option string
}.

(** [nextOccurrence(task)]: nothing for a task that does not repeat. *)
Definition nextOccurrence (task : Task) : option TaskSkeleton :=
  match repeatFrequency task with
  | None => None
  | Some f =>
      Some (mkTaskSkeleton
              (content task) todo
              (match dueDate task with
               | None => None
               | Some s =>
                   match parse_date s with
                   | Some d => Some (format_date (next_date f d))
                   | None => None
                   end
               end)
              (Some f) (parentId task))
  end.

(** The number of a day, counting the days of all earlier years, of the
    earlier months of its year, and of its month up to it. *)
Definition year_length (y : nat) : nat := if is_leap_year y then 366 else 365.

Fixpoint days_before_year (y : nat) : nat :=
  match y with
  | 0 => 0
  | S y' => days_before_year y' + year_length y'
  end.

Fixpoint days_before_month (y m : nat) : nat :=
  match m with
  | 0 => 0
  | S m' =>
      match m' with
      | 0 => 0
      | _ => days_before_month y m' + days_in_month y m'
      end
  end.

Definition day_number (d : Date) : nat :=
  days_before_year (year d) + days_before_month (year d) (month d) + day d.

(** The number that a text of decimal digits writes. *)
Fixpoint decimal_value (acc : nat) (s : string) : option nat :=
  match s with
  | EmptyString => Some acc
  | String c s' =>
      if is_digit c then decimal_value (10 * acc + digit_value c) s' else None
  end.

(** The text [s] is the date [d] written as [YYYY-MM-DD]. *)
Definition reads_as (s : string) (d : Date) : Prop :=
  String.length s = 10
  /\ decimal_value 0 (substring 0 4 s) = Some (year d)
  /\ substring 4 1 s = "-"
  /\ decimal_value 0 (substring 5 2 s) = Some (month d)
  /\ substring 7 1 s = "-"
  /\ decimal_value 0 (substring 8 2 s) = Some (day d).

Definition repeating_task (due : option string) (f : RepeatFrequency)
  (parent : option string) : Task :=
  mkTask "p-7" "Take vitamins" done due (Some f)
         "- [x] Take vitamins" 7 parent [].

(** What the next date is for each frequency: the day numbered one or seven
    higher, or the same day of the following month, clamped to the length of
    that month. *)
Definition advanced (f : RepeatFrequency) (d d' : Date) : Prop :=
  match f with
  | daily => day_number d' = day_number d + 1
  | weekly => day_number d' = day_number d + 7
  | monthly =>
      (year d', month d')
      = (if (month d <? 12)%nat then (year d, S (month d)) else (S (year d), 1))
      /\ day d' = Nat.min (day d) (days_in_month (year d') (month d'))
  end.

(** ** A concrete setting for the route

    Supabase mode, a signed-in user, the stored project [A [A1], B], and the
    parser above in the place of [parseMarkdown]. *)
Definition demo_env : Env :=
  mkEnv (fun _ => mkValidationResult true None)
        (Some "https://demo.supabase.co") (Some "anon-key") (Some "service-key")
        (Some "true")
        (Some "user-1")
        (fun pid _ => Some (mkProject pid "Proj" stored_forest ""))
        parseMarkdown_spec
        (fun _ => "data")
        (fun dir file => (dir ++ "/" ++ file)%string)
        (fun _ => true)
        (fun _ => true)
        accepting.

Definition content_body (content : string) : option JsValue :=
  Some (JObject [("content", JString content)]).

(** Two documents with the same duplicate tag, on line 1 and on line 2. *)
Definition bad_document_1 : string :=
  "- [ ] Buy milk #due:2025-11-23 #due:2025-11-24".

Definition bad_document_2 : string :=
  String.concat (String "010" "")
    [ "# Proj"; "- [ ] Buy milk #due:2025-11-23 #due:2025-11-24" ].

(** The response of the route tells the line of the parse error: some
    reading of the response yields it for every document whose parse
    raises. *)
Definition surfaces_line_number (env : Env) : Prop :=
  exists line_of : Response -> nat,
    forall pid content e,
      parseMarkdown env pid content "" = inl e ->
      line_of (fst (PUT env pid (content_body content))) = pve_line e.

(** ** More of the raw-document route: reading, and the file system *)

(** A project as the parser returns it, with another title. *)
Definition retitled (f : string -> string) (r : ParseValidationError + Project)
  : ParseValidationError + Project :=
  match r with
  | inl e => inl e
  | inr p => inr (mkProject (projectId p) (f (title p)) (tasks p) (path p))
  end.

(** The same setting with another parser. *)
Definition with_parser (env : Env)
  (parser : string -> string -> string -> ParseValidationError + Project) : Env :=
  mkEnv (validateProjectId env)
        (NEXT_PUBLIC_SUPABASE_URL env) (NEXT_PUBLIC_SUPABASE_ANON_KEY env)
        (SUPABASE_SERVICE_ROLE_KEY env) (USE_SUPABASE env)
        (auth env) (getProject env) parser
        (getUserDataDir env) (path_join env) (validateFilePath env) (existsSync env)
        (rejects env).

(** The path of a project's file: [path.join(dataDir, `${projectId}.md`)]. *)
Definition project_file (env : Env) (pid : string) : string :=
  path_join env (getUserDataDir env (auth env)) (pid ++ ".md")%string.

(** [GET /api/v1/projects/[projectId]/raw]: the answer carries the
    document or an error. *)
Inductive GetBody :=
| GetError (error : option string)   (* { error: ... } *)
| GetContent (content : string).     (* { content } *)

Record GetResponse := mkGetResponse {
  get_status : nat;
  get_body : GetBody
}.

(** What the reading side needs beyond [Env]: the renderer and the file
    read, which throws on a file it cannot read. *)
Record ReadEnv := mkReadEnv {
  renderMarkdown : Project -> string;
  readFileSync : string -> option string
}.

Definition GET (env : Env) (renv : ReadEnv) (pid : string) : GetResponse :=
  let projectIdValidation := validateProjectId env pid in
  if negb (valid projectIdValidation) then
    mkGetResponse 400 (GetError (error projectIdValidation))
  else if useSupabase env then
    let userId := auth env in
    if negb (truthy userId) then mkGetResponse 401 (GetError (Some "Unauthorized"))
    else
      let userId := match userId with Some u => u | None => "" end in
      match getProject env pid userId with
      | None => mkGetResponse 404 (GetError (Some "Project not found"))
      | Some project => mkGetResponse 200 (GetContent (renderMarkdown renv project))
      end
  else
    let filePath := project_file env pid in
    if negb (validateFilePath env filePath) then
      mkGetResponse 400 (GetError (Some "Invalid file path"))
    else if negb (existsSync env filePath) then
      mkGetResponse 404 (GetError (Some "Project not found"))
    else
      match readFileSync renv filePath with
      | Some content => mkGetResponse 200 (GetContent content)
      | None => mkGetResponse 500 (GetError (Some "Failed to read project content"))
      end.

(** A file system: the content of each file that exists, by path. *)
Definition FileSystem := JsMap.t string.

Definition write_call (fs : FileSystem) (c : Call) : FileSystem :=
  match c with
  | WriteFile filePath content => JsMap.set filePath content fs
  | _ => fs
  end.

(** The file system after the calls of a log, when none of them threw. *)
Definition after_calls (fs : FileSystem) (log : list Call) : FileSystem :=
  fold_left write_call log fs.

(** The setting whose [fs.existsSync] looks at a file system. *)
Definition on_file_system (env : Env) (fs : FileSystem) : Env :=
  mkEnv (validateProjectId env)
        (NEXT_PUBLIC_SUPABASE_URL env) (NEXT_PUBLIC_SUPABASE_ANON_KEY env)
        (SUPABASE_SERVICE_ROLE_KEY env) (USE_SUPABASE env)
        (auth env) (getProject env) (parseMarkdown env)
        (getUserDataDir env) (path_join env) (validateFilePath env)
        (fun p => JsMap.has p fs)
        (rejects env).

Definition reading (render : Project -> string) (fs : FileSystem) : ReadEnv :=
  mkReadEnv render (fun p => JsMap.get p fs).

(** The concrete setting in file mode: [USE_SUPABASE] is not set. *)
Definition file_env : Env :=
  mkEnv (fun _ => mkValidationResult true None)
        None None None None
        None
        (fun _ _ => None)
        parseMarkdown_spec
        (fun _ => "data")
        (fun dir file => (dir ++ "/" ++ file)%string)
        (fun _ => true)
        (fun _ => true)
        accepting.

(** The statuses with which the route turns a request away. *)
Definition rejected (st : nat) : Prop := st = 400 \/ st = 401 \/ st = 404.

(** ** Vocabulary for the task-line pattern *)

(** A text made of white-space characters only. *)
Inductive Blank : string -> Prop :=
| Blank_nil : Blank ""
| Blank_cons p s : In p WHITE_SPACE -> Blank s -> Blank (p ++ s).

(** No line terminator begins anywhere in the text. *)
Fixpoint no_terminator (s : string) : bool :=
  match s with
  | EmptyString => true
  | String c s' =>
      match strip_any LINE_TERMINATORS s with
      | Some _ => false
      | None => no_terminator s'
      end
  end.

(** The text ends here, or goes on with a line terminator. *)
Definition ends_or_breaks (s : string) : bool :=
  match s with
  | EmptyString => true
  | String _ _ =>
      match strip_any LINE_TERMINATORS s with
      | Some _ => true
      | None => false
      end
  end.

Definition checkbox (checked : bool) : string :=
  if checked then "- [x] " else "- [ ] ".

(** ** The project route, [PUT /api/v1/projects/[projectId]]

    It renames a project.  Its [useSupabase] is the same test of the
    environment as above, made once when the module is loaded. *)

(** [const { title } = body], as for [content]. *)
Definition destructure_title (body : JsValue) : option JsSlot :=
  match body with
  | JNull => None
  | JObject fields =>
      Some (match assoc_get "title" fields with
            | Some v => Defined v
            | None => Undefined
            end)
  | _ => Some Undefined
  end.

Inductive ProjectCall :=
| UpdateProject (userId pid title : string)       (* supabase-adapter *)
| UpdateProjectTitle (path title : string).       (* markdown-updater *)

(** The collaborators of the project route that [Env] does not have; the
    call to the store or to the file may throw. *)
Record ProjectEnv := mkProjectEnv {
  validateProjectTitle : JsSlot -> ValidationResult;
  getAllProjectsFromDir : string -> list Project;
  update_throws : ProjectCall -> bool
}.

(** [projects.find((p) => p.id === projectId)] *)
Definition find_project (pid : string) (projects : list Project) : option Project :=
  find (fun p => String.eqb (projectId p) pid) projects.

(** [PUT]: the [try] block with its [catch]; [title.trim()] throws on a
    title that is not a string, and a call that throws ends in the [catch]
    as well. *)
Definition PUT_title (env : Env) (penv : ProjectEnv) (pid : string)
  (body : option JsValue) : Response * list ProjectCall :=
  let failed := json_error (Some "Failed to update project") 500 in
  let after_call c :=
    (if update_throws penv c then failed else json_success, [c]) in
  let projectIdValidation := validateProjectId env pid in
  if negb (valid projectIdValidation) then
    (json_error (error projectIdValidation) 400, [])
  else if negb (truthy (auth env)) then
    (json_error (Some "Unauthorized") 401, [])
  else
    let userId := match auth env with Some u => u | None => "" end in
    match body with
    | None => (failed, [])
    | Some b =>
        match destructure_title b with
        | None => (failed, [])
        | Some title =>
            let titleValidation := validateProjectTitle penv title in
            if negb (valid titleValidation) then
              (json_error (error titleValidation) 400, [])
            else
              match as_string title with
              | None => (failed, [])
              | Some title =>
                  let trimmedTitle := trim title in
                  if useSupabase env then
                    after_call (UpdateProject userId pid trimmedTitle)
                  else
                    let dataDir := getUserDataDir env (Some userId) in
                    let projects := getAllProjectsFromDir penv dataDir in
                    match find_project pid projects with
                    | None => (json_error (Some "Project not found") 404, [])
                    | Some project =>
                        after_call (UpdateProjectTitle (path project) trimmedTitle)
                    end
              end
        end
    end.

(** A title check that wants a string with something other than spaces. *)
Definition demo_project_env : ProjectEnv :=
  mkProjectEnv
    (fun title =>
       match as_string title with
       | Some s => if String.eqb (trim s) "" then
                     mkValidationResult false (Some "Project title cannot be empty")
                   else mkValidationResult true None
       | None => mkValidationResult false (Some "Project title must be a string")
       end)
    (fun dir => [mkProject "p" "Proj" [] (dir ++ "/p.md")%string])
    (fun _ => false).

(** ** The sidebar, [handleSave]

    The component state the handler reads, and what it asks for: state
    changes and the rename callback, whose promise resolves or rejects. *)
Record SidebarState := mkSidebarState {
  editingProjectId : option string;
  editingTitle : string;
  isSubmitting : bool
}.

Inductive SidebarEffect :=
| SetEditingProjectId (v : option string)
| SetEditingTitle (v : string)
| SetIsSubmitting (v : bool)
| OnProjectTitleUpdate (pid newTitle : string)
| ConsoleError.

Definition handleSave (st : SidebarState) (resolves : string -> string -> bool)
  : list SidebarEffect :=
  if negb (truthy (editingProjectId st)) || isSubmitting st then []
  else
    let pid := match editingProjectId st with Some p => p | None => "" end in
    let trimmedTitle := trim (editingTitle st) in
    if String.eqb trimmedTitle "" then [SetEditingProjectId None]
    else
      [SetIsSubmitting true; OnProjectTitleUpdate pid trimmedTitle]
      ++ (if resolves pid trimmedTitle then [SetEditingProjectId None]
          else [ConsoleError])
      ++ [SetIsSubmitting false].

Definition handleCancel : list SidebarEffect :=
  [SetEditingProjectId None; SetEditingTitle ""].


(** ** Performance monitoring, [lib/monitoring]

    [withPerformanceMonitoring] runs an operation between a local
    measurement and a Sentry span.  The operation is given by how its promise
    settles; the span may be missing ([sentrySpan?.]).  The context holds the
    three fields the span looks at and any further keys. *)

Record MonitoringContext := mkMonitoringContext {
  operation : string;
  ctx_projectId : option string;
  ctx_taskId : option string;
  ctx_action : option string;
  ctx_more : list (string * string)
}.

Inductive MonitorEffect :=
| StartPerformanceMeasurement (name : string) (ctx : MonitoringContext)
| StartInactiveSpan (name op : string) (attributes : list (string * string))
| SpanSetStatus (code : nat) (message : string)
| SpanEnd
| EndPerformanceMeasurement
| LogError (ctx : MonitoringContext)
| CaptureException (extra : MonitoringContext).

(** [...(value && { key: value })]: a key only for a truthy value. *)
Definition attribute (key : string) (value : option string) : list (string * string) :=
  match value with
  | Some v => if String.eqb v "" then [] else [(key, v)]
  | None => []
  end.

Definition span_attributes (ctx : MonitoringContext) : list (string * string) :=
  attribute "project.id" (ctx_projectId ctx)
  ++ attribute "task.id" (ctx_taskId ctx)
  ++ attribute "action" (ctx_action ctx).

Definition on_span (span : bool) (effects : list MonitorEffect) : list MonitorEffect :=
  if span then effects else [].

Definition withPerformanceMonitoring {E T} (context : MonitoringContext)
  (settled : E + T) (span : bool) : list MonitorEffect * (E + T) :=
  let started :=
    [ StartPerformanceMeasurement (operation context) context;
      StartInactiveSpan (operation context) "function" (span_attributes context) ] in
  match settled with
  | inr result =>
      (started ++ on_span span [SpanEnd] ++ [EndPerformanceMeasurement],
       inr result)
  | inl error =>
      (started ++ on_span span [SpanSetStatus 2 "error"; SpanEnd]
               ++ [LogError context; CaptureException context],
       inl error)
  end.

Definition withFileOperationMonitoring {E T} (op filePath : string)
  (settled : E + T) (span : bool) : list MonitorEffect * (E + T) :=
  withPerformanceMonitoring
    (mkMonitoringContext ("file:" ++ op)%string None None None
                         [("filePath", filePath)])
    settled span.

Definition withMarkdownParsingMonitoring {E T} (pid : string)
  (settled : E + T) (span : bool) : list MonitorEffect * (E + T) :=
  withPerformanceMonitoring
    (mkMonitoringContext "markdown:parse" (Some pid) None None [])
    settled span.

Definition withMarkdownUpdateMonitoring {E T} (pid action : string)
  (settled : E + T) (span : bool) : list MonitorEffect * (E + T) :=
  withPerformanceMonitoring
    (mkMonitoringContext "markdown:update" (Some pid) None (Some action) [])
    settled span.

Definition is_span_end (e : MonitorEffect) : bool :=
  match e with
  | SpanEnd => true
  | _ => false
  end.

Definition is_report (e : MonitorEffect) : bool :=
  match e with
  | LogError _ | CaptureException _ => true
  | _ => false
  end.

Definition is_measurement_end (e : MonitorEffect) : bool :=
  match e with
  | EndPerformanceMeasurement => true
  | _ => false
  end.

(** ** Vocabulary for the round trip through the Renderer *)










(** No number sign in the text: no tag can begin in it. *)
Fixpoint hash_free (s : string) : bool :=
  match s with
  | EmptyString => true
  | String c s' => negb (Ascii.eqb c "#") && hash_free s'
  end.

(** The Tag Extractor reads the text of the task's line back as the task's
    content and tags, and the text stays on its line. *)
Definition reads_back (t : Task) : Prop :=
  extractTags (task_text t)
  = inr (mkTags (content t) (dueDate t) (repeatFrequency t))
  /\ no_terminator (task_text t) = true.







(** The forest of the end-to-end scenario. *)
Definition sample_forest : list Task :=
  [ mkTask "p-1" "Buy milk" todo (Some "2025-11-23") None
           "- [ ] Buy milk #due:2025-11-23" 3 None
      [ mkTask "p-2" "Pick brand" todo None None
               "    - [ ] Pick brand" 4 (Some "p-1") [] ];
    mkTask "p-3" "Setup" done None None "- [x] Setup" 6 None [] ].

(* ================================================================== *)
(** * Part II: properties                                              *)
(* ================================================================== *)

(** ** Facts about [JsMap] *)

Lemma JsMap_get_set_same V k (v : V) m : JsMap.get k (JsMap.set k v m) = Some v.
Proof.
  induction m as [|[k' v'] m IH]; simpl.
  - now rewrite String.eqb_refl.
  - destruct (String.eqb k' k) eqn:E; simpl; rewrite E; auto.
Qed.

Lemma JsMap_get_set_other V k k' (v : V) m :
  k' <> k -> JsMap.get k' (JsMap.set k v m) = JsMap.get k' m.
Proof.
  intros Hne. induction m as [|[k0 v0] m IH]; simpl.
  - destruct (String.eqb_spec k k'); congruence.
  - destruct (String.eqb_spec k0 k); simpl.
    + subst. destruct (String.eqb_spec k k'); congruence.
    + now rewrite IH.
Qed.

Lemma JsMap_has_set V k k' (v : V) m :
  JsMap.has k' (JsMap.set k v m) = String.eqb k k' || JsMap.has k' m.
Proof.
  unfold JsMap.has. destruct (String.eqb_spec k k').
  - subst. now rewrite JsMap_get_set_same.
  - rewrite JsMap_get_set_other by congruence. reflexivity.
Qed.

Lemma JsMap_has_keys V k (m : JsMap.t V) :
  JsMap.has k m = true <-> In k (JsMap.keys m).
Proof.
  unfold JsMap.has, JsMap.keys. induction m as [|[k' v'] m IH]; simpl.
  - split; [discriminate | tauto].
  - destruct (String.eqb_spec k' k).
    + split; auto.
    + rewrite IH. split; [auto | intros [?|?]; [congruence | auto]].
Qed.

Lemma JsMap_get_in V k (v : V) m : JsMap.get k m = Some v -> In (k, v) m.
Proof.
  induction m as [|[k' v'] m IH]; simpl; [discriminate|].
  destruct (String.eqb_spec k' k).
  - intros [= <-]. subst. now left.
  - auto.
Qed.

Lemma JsMap_in_get V k (v : V) m :
  NoDup (JsMap.keys m) -> In (k, v) m -> JsMap.get k m = Some v.
Proof.
  unfold JsMap.keys.
  induction m as [|[k' v'] m IH]; simpl; [tauto|].
  intros Hnd [Heq|Hin].
  - injection Heq as -> ->. now rewrite String.eqb_refl.
  - inversion Hnd as [|? ? Hnotin Hnd']; subst.
    destruct (String.eqb_spec k' k).
    + subst. exfalso. apply Hnotin. now apply (in_map fst) in Hin.
    + auto.
Qed.

Lemma JsMap_keys_set V k (v : V) m :
  JsMap.keys (JsMap.set k v m)
  = if JsMap.has k m then JsMap.keys m else JsMap.keys m ++ [k].
Proof.
  unfold JsMap.has, JsMap.keys. induction m as [|[k' v'] m IH]; simpl; auto.
  destruct (String.eqb_spec k' k); simpl.
  - now subst.
  - rewrite IH. now destruct (JsMap.get k m).
Qed.

Lemma JsMap_keys_set_NoDup V k (v : V) m :
  NoDup (JsMap.keys m) -> NoDup (JsMap.keys (JsMap.set k v m)).
Proof.
  intros Hnd. rewrite JsMap_keys_set.
  destruct (JsMap.has k m) eqn:Hhas; auto.
  apply NoDup_app; [auto | repeat constructor; simpl; tauto |].
  intros x Hx [<-|[]]. apply JsMap_has_keys in Hx. congruence.
Qed.

Lemma JsMap_set_absent V k (v : V) m :
  JsMap.has k m = false -> JsMap.set k v m = m ++ [(k, v)].
Proof.
  unfold JsMap.has. induction m as [|[k' v'] m IH]; simpl; auto.
  destruct (String.eqb k' k); [discriminate|].
  intros H. now rewrite IH.
Qed.

Lemma JsMap_has_app V k (m1 m2 : JsMap.t V) :
  JsMap.has k (m1 ++ m2) = JsMap.has k m1 || JsMap.has k m2.
Proof.
  unfold JsMap.has. induction m1 as [|[k' v'] m1 IH]; simpl; auto.
  now destruct (String.eqb k' k).
Qed.

Lemma JsMap_has_empty V k : JsMap.has k (@JsMap.empty V) = false.
Proof. reflexivity. Qed.

Lemma JsMap_has_own_key V (m : JsMap.t V) k v : In (k, v) m -> JsMap.has k m = true.
Proof.
  intros H. apply JsMap_has_keys. unfold JsMap.keys.
  now apply (in_map fst) in H.
Qed.

(** ** The maps built by the route *)

Lemma mapTask_preorder t :
  forall m, mapTask t m = fold_left set_task (preorder_task t) m.
Proof.
  induction t as [t IH] using Task_forest_ind. intros m.
  destruct t as [i c s d r raw ln p subs]; simpl in *.
  change (JsMap.set i ?x m) with (set_task m x).
  generalize (set_task m (mkTask i c s d r raw ln p subs)) as m0.
  induction IH as [|t' ts' Ht' _ IHts]; intros m0; simpl; auto.
  rewrite fold_left_app, <- Ht'. apply IHts.
Qed.

Lemma mapTasks_preorder ts :
  forall m, mapTasks ts m = fold_left set_task (preorder ts) m.
Proof.
  unfold mapTasks, preorder.
  induction ts as [|t ts IH]; intros m; simpl; auto.
  now rewrite fold_left_app, <- mapTask_preorder, IH.
Qed.

Lemma fold_set_task_has k l :
  forall m, JsMap.has k (fold_left set_task l m)
            = JsMap.has k m || existsb (fun t => String.eqb (id t) k) l.
Proof.
  induction l as [|t l IH]; intros m; simpl.
  - now rewrite orb_false_r.
  - rewrite IH. unfold set_task. rewrite JsMap_has_set.
    destruct (String.eqb (id t) k), (JsMap.has k m); reflexivity.
Qed.

Lemma fold_set_task_NoDup l :
  forall m, NoDup (JsMap.keys m) -> NoDup (JsMap.keys (fold_left set_task l m)).
Proof.
  induction l as [|t l IH]; intros m Hm; simpl; auto.
  apply IH. now apply JsMap_keys_set_NoDup.
Qed.

(** A key of the map is the id of some task of the forest, at any depth. *)
Lemma mapTasks_has k ts :
  JsMap.has k (mapTasks ts JsMap.empty) = true
  <-> exists t, In t (preorder ts) /\ id t = k.
Proof.
  rewrite mapTasks_preorder, fold_set_task_has. simpl.
  rewrite existsb_exists. split.
  - intros (t & Hin & Heq). exists t. split; auto. now apply String.eqb_eq.
  - intros (t & Hin & Heq). exists t. split; auto. now apply String.eqb_eq.
Qed.

Lemma mapTasks_NoDup ts : NoDup (JsMap.keys (mapTasks ts JsMap.empty)).
Proof.
  rewrite mapTasks_preorder. apply fold_set_task_NoDup. constructor.
Qed.

(** The value stored under a key is a task of the forest with that id. *)
Lemma fold_set_task_get k v l :
  forall m, JsMap.get k (fold_left set_task l m) = Some v ->
            JsMap.get k m = Some v \/ (In v l /\ id v = k).
Proof.
  induction l as [|t l IH]; intros m H; simpl in *; auto.
  apply IH in H. destruct H as [H|[H1 H2]]; auto.
  unfold set_task in H. destruct (String.eqb_spec (id t) k) as [E|E].
  - rewrite <- E, JsMap_get_set_same in H. injection H as <-. auto.
  - rewrite JsMap_get_set_other in H by congruence. auto.
Qed.

Lemma mapTasks_get k v ts :
  JsMap.get k (mapTasks ts JsMap.empty) = Some v ->
  In v (preorder ts) /\ id v = k.
Proof.
  rewrite mapTasks_preorder. intros H.
  apply fold_set_task_get in H. destruct H as [H|H]; [discriminate | auto].
Qed.

(** ** Calls issued one after the other *)

Lemma for_of_app A (xs ys : list A) (body : A -> Handler unit) :
  forall log,
    for_of (xs ++ ys) body log = (for_of xs body ;;; for_of ys body) log.
Proof.
  induction xs as [|x xs IH]; intros log; simpl.
  - reflexivity.
  - unfold bind. destruct (body x log) as [[u|r|e] log']; auto.
Qed.

Lemma issue_run rejects plan :
  forall log,
    for_of plan (call rejects) log
    = (match first_rejected rejects log plan with
       | None => Next tt
       | Some c => Throw (Rejected c)
       end,
       log ++ until_rejected rejects log plan).
Proof.
  induction plan as [|c plan IH]; intros log; simpl.
  - unfold ret. now rewrite app_nil_r.
  - unfold bind, call. destruct (rejects log c); [reflexivity|].
    rewrite IH, <- app_assoc. reflexivity.
Qed.

Lemma until_rejected_prefix rejects plan :
  forall log, exists rest, plan = until_rejected rejects log plan ++ rest.
Proof.
  induction plan as [|c plan IH]; intros log; simpl.
  - now exists [].
  - destruct (rejects log c).
    + now exists plan.
    + destruct (IH (log ++ [c])) as (rest & E). exists rest. simpl. congruence.
Qed.

Lemma until_rejected_in rejects log plan c :
  In c (until_rejected rejects log plan) -> In c plan.
Proof.
  intros H. destruct (until_rejected_prefix rejects plan log) as (rest & E).
  rewrite E. apply in_or_app. now left.
Qed.

Lemma until_rejected_accepted rejects plan :
  forall log, first_rejected rejects log plan = None ->
              until_rejected rejects log plan = plan.
Proof.
  induction plan as [|c plan IH]; intros log; simpl; auto.
  destruct (rejects log c); [discriminate|]. intros H. now rewrite IH.
Qed.


Lemma first_rejected_none rejects plan :
  forall log, (forall l c, In c plan -> rejects l c = false) ->
              first_rejected rejects log plan = None.
Proof.
  induction plan as [|c plan IH]; intros log H; simpl; auto.
  rewrite H by now left. apply IH. intros l c' Hc. apply H. now right.
Qed.

Lemma first_rejected_in rejects plan :
  forall log c, first_rejected rejects log plan = Some c -> In c plan.
Proof.
  induction plan as [|c0 plan IH]; intros log c; simpl; [discriminate|].
  destruct (rejects log c0); [intros [= <-]; now left|].
  intros H. right. eapply IH, H.
Qed.

(** A prefix of a list keeps at most what the list has. *)
Lemma prefix_filter A (f : A -> bool) (l pre rest : list A) :
  l = pre ++ rest -> exists more, filter f l = filter f pre ++ more.
Proof. intros ->. rewrite filter_app. eauto. Qed.

Lemma prefix_of_app A (a b pre rest : list A) :
  a ++ b = pre ++ rest ->
  (exists a', a = pre ++ a') \/ (exists b', pre = a ++ b' /\ b = b' ++ rest).
Proof.
  revert pre. induction a as [|x a IH]; intros pre H; simpl in *.
  - right. now exists pre.
  - destruct pre as [|y pre]; simpl in *.
    + left. now exists (x :: a).
    + injection H as <- H. destruct (IH pre H) as [(a' & ->)|(b' & -> & ->)].
      * left. now exists a'.
      * right. now exists b'.
Qed.

(** ** The log of the synchronisation *)

Lemma deleteRemoved_issue rejects newMap exMap :
  forall log,
    deleteRemoved rejects exMap newMap log
    = for_of (map DeleteTask (removed_ids exMap newMap)) (call rejects) log.
Proof.
  unfold deleteRemoved, removed_ids.
  induction exMap as [|[k v] m IH]; intros log; simpl; [reflexivity|].
  destruct (JsMap.has k newMap); simpl; unfold bind.
  - apply IH.
  - destruct (call rejects (DeleteTask k) log) as [[u|r|e] log']; auto.
Qed.

Lemma addOrUpdate_issue rejects pid exMap newMap :
  forall log,
    addOrUpdate rejects pid exMap newMap log
    = for_of (map (upsert pid exMap) newMap) (call rejects) log.
Proof.
  unfold addOrUpdate.
  induction newMap as [|[k v] m IH]; intros log; simpl; [reflexivity|].
  destruct (JsMap.has k exMap); simpl; unfold bind;
    match goal with
    | |- context [call rejects ?c log] =>
        destruct (call rejects c log) as [[u|r|e] log']; auto
    end.
Qed.

(** The synchronisation issues its plan, and stops at a call that rejects. *)
Lemma syncTasks_run rejects pid existing incoming log :
  syncTasks rejects pid existing incoming log
  = (match first_rejected rejects log (sync_plan pid existing incoming) with
     | None => Next tt
     | Some c => Throw (Rejected c)
     end,
     log ++ until_rejected rejects log (sync_plan pid existing incoming)).
Proof.
  rewrite <- issue_run. unfold sync_plan. rewrite for_of_app.
  unfold syncTasks, bind. rewrite deleteRemoved_issue.
  match goal with
  | |- context [for_of ?l (call rejects) log] =>
      destruct (for_of l (call rejects) log) as [[u|r|e] log']; auto
  end.
  apply addOrUpdate_issue.
Qed.

Lemma sync_log_eq rejects pid existing incoming :
  sync_log rejects pid existing incoming
  = until_rejected rejects [] (sync_plan pid existing incoming).
Proof. unfold sync_log. now rewrite syncTasks_run. Qed.

Lemma sync_completes rejects pid existing incoming log :
  fst (syncTasks rejects pid existing incoming log) = Next tt ->
  first_rejected rejects log (sync_plan pid existing incoming) = None.
Proof.
  rewrite syncTasks_run. simpl.
  destruct (first_rejected rejects log _); [discriminate | reflexivity].
Qed.

Lemma upsert_not_delete pid exMap entry : is_delete (upsert pid exMap entry) = false.
Proof. destruct entry as [k v]. simpl. now destruct (JsMap.has k exMap). Qed.

Lemma removed_ids_spec existing incoming k :
  In k (removed_ids (mapTasks existing JsMap.empty) (mapTasks incoming JsMap.empty))
  <-> has_id existing k /\ ~ has_id incoming k.
Proof.
  unfold removed_ids, has_id. rewrite filter_In, <- JsMap_has_keys.
  rewrite negb_true_iff, <- !mapTasks_has.
  destruct (JsMap.has k (mapTasks incoming JsMap.empty)); intuition congruence.
Qed.


Lemma in_upserts_not_delete pid exMap newMap k :
  ~ In (DeleteTask k) (map (upsert pid exMap) newMap).
Proof.
  intros H. apply in_map_iff in H. destruct H as (entry & Heq & _).
  pose proof (upsert_not_delete pid exMap entry) as Hd.
  rewrite Heq in Hd. discriminate.
Qed.

(** What the plan holds: a deletion for each id that is gone, and for each
    id of the parsed document an update or a creation. *)
Lemma sync_plan_in pid existing incoming c :
  In c (sync_plan pid existing incoming)
  <-> (exists k, c = DeleteTask k /\ has_id existing k /\ ~ has_id incoming k)
      \/ (exists k n, incoming_entry incoming k = Some n /\ has_id existing k
                      /\ c = UpdateTask k (update_of n))
      \/ (exists k n, incoming_entry incoming k = Some n /\ ~ has_id existing k
                      /\ c = add_of pid n).
Proof.
  unfold sync_plan, incoming_entry, mapExistingTasks, mapNewTasks. cbv zeta.
  set (exMap := mapTasks existing JsMap.empty).
  set (newMap := mapTasks incoming JsMap.empty).
  assert (Hex : forall k, JsMap.has k exMap = true <-> has_id existing k)
    by (intros; apply mapTasks_has).
  rewrite in_app_iff. split.
  - intros [Hc|Hc].
    + left. apply in_map_iff in Hc. destruct Hc as (k & <- & Hk).
      exists k. apply removed_ids_spec in Hk. tauto.
    + right. apply in_map_iff in Hc. destruct Hc as ([k n] & <- & Hin).
      assert (Hget : JsMap.get k newMap = Some n)
        by (apply JsMap_in_get; auto; apply mapTasks_NoDup).
      simpl. destruct (JsMap.has k exMap) eqn:E.
      * left. exists k, n. repeat split; auto. now apply Hex.
      * right. exists k, n. repeat split; auto.
        intros H. apply Hex in H. congruence.
  - intros [(k & -> & H1 & H2)|[(k & n & Hget & Hk & ->)|(k & n & Hget & Hk & ->)]].
    + left. apply in_map. apply removed_ids_spec. auto.
    + right. apply JsMap_get_in in Hget. apply Hex in Hk.
      apply in_map_iff. exists (k, n). split; auto. simpl. now rewrite Hk.
    + right. apply JsMap_get_in in Hget.
      apply in_map_iff. exists (k, n). split; auto. simpl.
      destruct (JsMap.has k exMap) eqn:E; auto. apply Hex in E. tauto.
Qed.

Lemma sync_plan_mutations pid existing incoming c :
  In c (sync_plan pid existing incoming) -> is_mutation c = true.
Proof.
  rewrite sync_plan_in.
  intros [(k & -> & _)|[(k & n & _ & _ & ->)|(k & n & _ & _ & ->)]]; reflexivity.
Qed.

(** ** Claims about the synchronisation loops *)



Example deletions_when_nothing_rejects :
  sync_log accepting "p" stored_forest []
  = [DeleteTask "p-1"; DeleteTask "p-2"; DeleteTask "p-3"].
Proof. reflexivity. Qed.

(** C1, as stated, fails: with the stored forest [A [A1], B] (ids p-1, p-2,
    p-3) and the edited forest [A, B] (ids p-1, p-2), the nodes at position 1
    are not paired; the route deletes p-3 and overwrites p-2, the id of the
    node at position 0.0 that has no positional partner.  No call rejects in
    this run. *)
Lemma C1_position_counterexample :
  sync_log accepting "p" stored_forest edited_forest
  = [ DeleteTask "p-3";
      UpdateTask "p-1" (mkTaskUpdate "A" todo None None);
      UpdateTask "p-2" (mkTaskUpdate "B" todo None None) ]
  /\ ~ matches_by_position accepting "p" stored_forest edited_forest.
Proof.
  split; [reflexivity|].
  intros (Hpair & _ & _).
  destruct (Hpair [1] (plain_task "p-3" "B" 5 None [])
                  (plain_task "p-2" "B" 4 None []) eq_refl eq_refl) as [_ Hno].
  apply Hno. vm_compute. auto.
Qed.

(** C1, amended: nodes are paired by id, wherever they sit.  The route
    makes the calls of a plan, one after the other, up to the first call that
    rejects, if one does.  In the plan, an id of the parsed document that
    some existing task carries is updated with the fields of the parsed task
    kept for that id; an id no existing task carries becomes a creation; an
    existing id absent from the parsed document is deleted; and the plan
    holds no other call. *)
Theorem C1_matching_by_id rejects pid existing incoming :
  exists plan,
    sync_log rejects pid existing incoming = until_rejected rejects [] plan
    /\ ((forall l c, rejects l c = false) ->
        sync_log rejects pid existing incoming = plan)
    /\ (forall k n, incoming_entry incoming k = Some n -> has_id existing k ->
                    In (UpdateTask k (update_of n)) plan)
    /\ (forall k n, incoming_entry incoming k = Some n -> ~ has_id existing k ->
                    In (add_of pid n) plan)
    /\ (forall k, has_id existing k -> ~ has_id incoming k ->
                  In (DeleteTask k) plan)
    /\ (forall c, In c plan ->
          (exists k, c = DeleteTask k /\ has_id existing k /\ ~ has_id incoming k)
          \/ (exists k n, incoming_entry incoming k = Some n /\ has_id existing k
                          /\ c = UpdateTask k (update_of n))
          \/ (exists k n, incoming_entry incoming k = Some n /\ ~ has_id existing k
                          /\ c = add_of pid n)).
Proof.
  exists (sync_plan pid existing incoming).
  split; [apply sync_log_eq|]. split; [|split; [|split; [|split]]].
  - intros Hacc. rewrite sync_log_eq. apply until_rejected_accepted.
    apply first_rejected_none. intros l c _. apply Hacc.
  - intros k n Hget Hk. apply sync_plan_in. right. left. now exists k, n.
  - intros k n Hget Hk. apply sync_plan_in. right. right. now exists k, n.
  - intros k H1 H2. apply sync_plan_in. left. now exists k.
  - intros c. apply sync_plan_in.
Qed.

(** ** The calls that name one task *)

Lemma filter_map_delete_none k (ids : list string) :
  ~ In k ids -> filter (addresses k) (map DeleteTask ids) = [].
Proof.
  induction ids as [|i ids IH]; simpl; auto.
  intros H. destruct (String.eqb_spec i k).
  - exfalso. auto.
  - apply IH. tauto.
Qed.

Lemma filter_upserts_none pid exMap k :
  forall newMap : JsMap.t Task,
    ~ In k (JsMap.keys newMap) ->
    filter (addresses k) (map (upsert pid exMap) newMap) = [].
Proof.
  unfold JsMap.keys.
  induction newMap as [|[k1 n1] m IH]; simpl; auto.
  intros H.
  assert (Hne : k1 <> k) by tauto.
  assert (Hm : ~ In k (map fst m)) by tauto.
  destruct (JsMap.has k1 exMap); simpl;
    (destruct (String.eqb_spec k1 k); [congruence | auto]).
Qed.

Lemma filter_upserts pid exMap k n :
  forall newMap,
    NoDup (JsMap.keys newMap) -> In (k, n) newMap ->
    filter (addresses k) (map (upsert pid exMap) newMap)
    = if JsMap.has k exMap then [UpdateTask k (update_of n)] else [].
Proof.
  unfold JsMap.keys.
  induction newMap as [|[k' n'] m IH]; simpl; [tauto|].
  intros Hnd Hin. inversion Hnd as [|? ? Hnotin Hnd']; subst.
  destruct Hin as [Heq|Hin].
  - injection Heq as -> ->.
    pose proof (@filter_upserts_none pid exMap k m Hnotin) as Hrest.
    destruct (JsMap.has k exMap); simpl; rewrite ?String.eqb_refl, Hrest; reflexivity.
  - assert (Hne : k' <> k).
    { intros ->. apply Hnotin. now apply (in_map fst) in Hin. }
    rewrite <- (IH Hnd' Hin).
    destruct (JsMap.has k' exMap); simpl;
      (destruct (String.eqb_spec k' k); [congruence | reflexivity]).
Qed.

Lemma plan_addresses pid existing incoming k n :
  incoming_entry incoming k = Some n -> has_id existing k ->
  filter (addresses k) (sync_plan pid existing incoming)
  = [UpdateTask k (update_of n)].
Proof.
  unfold incoming_entry, mapNewTasks, sync_plan, mapExistingTasks.
  intros Hget Hk. cbv zeta. rewrite filter_app, filter_map_delete_none.
  - rewrite (@filter_upserts pid _ k n).
    + apply mapTasks_has in Hk. now rewrite Hk.
    + apply mapTasks_NoDup.
    + now apply JsMap_get_in.
  - intros H. apply removed_ids_spec in H. destruct H as [_ H]. apply H.
    apply mapTasks_has. unfold JsMap.has. now rewrite Hget.
Qed.

(** What the log holds for a task that is in both forests. *)
Lemma log_addresses rejects pid existing incoming k n :
  incoming_entry incoming k = Some n -> has_id existing k ->
  let log := sync_log rejects pid existing incoming in
  (forall c, In c log -> addresses k c = true -> c = UpdateTask k (update_of n))
  /\ (filter (addresses k) log = []
      \/ filter (addresses k) log = [UpdateTask k (update_of n)])
  /\ (fst (syncTasks rejects pid existing incoming []) = Next tt ->
      filter (addresses k) log = [UpdateTask k (update_of n)]).
Proof.
  intros Hget Hk log.
  pose proof (@plan_addresses pid existing incoming k n Hget Hk) as Hplan.
  assert (Hpre : exists more,
             [UpdateTask k (update_of n)] = filter (addresses k) log ++ more).
  { unfold log. rewrite sync_log_eq.
    destruct (until_rejected_prefix rejects (sync_plan pid existing incoming) [])
      as (rest & E).
    rewrite <- Hplan. now apply prefix_filter with (rest := rest). }
  destruct Hpre as (more & Hpre).
  assert (Hcases : filter (addresses k) log = []
                   \/ filter (addresses k) log = [UpdateTask k (update_of n)]).
  { destruct (filter (addresses k) log) as [|c [|c' l]]; auto.
    - right. simpl in Hpre. now injection Hpre as <- _.
    - simpl in Hpre. discriminate. }
  split; [|split; [exact Hcases|]].
  - intros c Hin Hc.
    assert (Hf : In c (filter (addresses k) log)) by (apply filter_In; auto).
    destruct Hcases as [E|E]; rewrite E in Hf; simpl in Hf;
      [tauto | destruct Hf as [<-|[]]; reflexivity].
  - intros Hdone. apply sync_completes in Hdone.
    unfold log. rewrite sync_log_eq, until_rejected_accepted; auto.
Qed.

(** ** The same document with other parents *)

Lemma reparent_task_id g t : id (reparent_task g t) = id t.
Proof. now destruct t. Qed.

Lemma reparent_task_parent g t : parentId (reparent_task g t) = g (id t).
Proof. now destruct t. Qed.

Lemma reparent_task_update g t : update_of (reparent_task g t) = update_of t.
Proof. now destruct t. Qed.

Lemma preorder_reparent_task g t :
  preorder_task (reparent_task g t) = map (reparent_task g) (preorder_task t).
Proof.
  induction t as [t IH] using Task_forest_ind.
  destruct t as [i c s d r raw ln p subs]. simpl in *. f_equal.
  induction IH as [|t' ts' Ht' _ IHts]; simpl; auto.
  now rewrite map_app, Ht', IHts.
Qed.

Lemma preorder_reparent g ts :
  preorder (reparent g ts) = map (reparent_task g) (preorder ts).
Proof.
  unfold preorder, reparent. induction ts as [|t ts IH]; simpl; auto.
  now rewrite map_app, preorder_reparent_task, IH.
Qed.

Lemma set_map_values f k v m :
  JsMap.set k (f v) (map_values f m) = map_values f (JsMap.set k v m).
Proof.
  induction m as [|[k' v'] m IH]; simpl; auto.
  destruct (String.eqb k' k); simpl; [reflexivity|]. now rewrite IH.
Qed.

Lemma fold_set_task_map_values f l :
  (forall t, id (f t) = id t) ->
  forall m, fold_left set_task (map f l) (map_values f m)
            = map_values f (fold_left set_task l m).
Proof.
  intros Hid. induction l as [|t l IH]; intros m; simpl; auto.
  unfold set_task at 2. rewrite Hid, set_map_values. apply IH.
Qed.

Lemma get_map_values f k m :
  JsMap.get k (map_values f m) = option_map f (JsMap.get k m).
Proof.
  induction m as [|[k' v'] m IH]; simpl; auto.
  now destruct (String.eqb k' k).
Qed.

Lemma incoming_entry_reparent g incoming k :
  incoming_entry (reparent g incoming) k
  = option_map (reparent_task g) (incoming_entry incoming k).
Proof.
  unfold incoming_entry, mapNewTasks.
  rewrite !mapTasks_preorder, preorder_reparent.
  change (@JsMap.empty Task) with (map_values (reparent_task g) JsMap.empty) at 1.
  rewrite fold_set_task_map_values by apply reparent_task_id.
  apply get_map_values.
Qed.

(** C8: for a task whose id is in both the existing project and the parsed
    document, every store call that names it is the [updateTask] whose
    argument holds content, status, dueDate and repeatFrequency of the parsed
    task and nothing else; there is at most one such call, and exactly one
    when the synchronisation runs to its end.  The parent written in the
    document has no part in it: give the parsed tasks any other parents, and
    every call that names the task is still that same [updateTask]. *)
Theorem C8_update_leaves_parent rejects pid existing incoming k n :
  incoming_entry incoming k = Some n ->
  has_id existing k ->
  let update :=
    UpdateTask k (mkTaskUpdate (content n) (status n) (dueDate n)
                               (repeatFrequency n)) in
  let log := sync_log rejects pid existing incoming in
  (forall c, In c log -> addresses k c = true -> c = update)
  /\ (filter (addresses k) log = [] \/ filter (addresses k) log = [update])
  /\ (fst (syncTasks rejects pid existing incoming []) = Next tt ->
      filter (addresses k) log = [update])
  /\ forall g,
       exists n',
         incoming_entry (reparent g incoming) k = Some n'
         /\ parentId n' = g k
         /\ forall c, In c (sync_log rejects pid existing (reparent g incoming)) ->
                      addresses k c = true -> c = update.
Proof.
  intros Hget Hk update log.
  destruct (@log_addresses rejects pid existing incoming k n Hget Hk)
    as (H1 & H2 & H3).
  split; [exact H1|]. split; [exact H2|]. split; [exact H3|].
  intros g. exists (reparent_task g n).
  assert (Hget' : incoming_entry (reparent g incoming) k = Some (reparent_task g n)).
  { rewrite incoming_entry_reparent, Hget. reflexivity. }
  split; [exact Hget'|]. split.
  - rewrite reparent_task_parent.
    unfold incoming_entry in Hget. apply mapTasks_get in Hget.
    destruct Hget as [_ ->]. reflexivity.
  - destruct (@log_addresses rejects pid existing (reparent g incoming) k
                            (reparent_task g n) Hget' Hk) as (H1' & _).
    rewrite reparent_task_update in H1'. exact H1'.
Qed.

(** The stored forest submitted again with A1 no longer under A: the one
    call that names p-2 is the update of its four fields. *)
Lemma C8_update_leaves_parent_witness :
  incoming_entry stored_forest "p-2"
  = Some (plain_task "p-2" "A1" 4 (Some "p-1") [])
  /\ has_id stored_forest "p-2"
  /\ option_map parentId
                (incoming_entry (reparent (fun _ => None) stored_forest) "p-2")
     = Some None
  /\ forall c,
       In c (sync_log accepting "p" stored_forest
                      (reparent (fun _ => None) stored_forest)) ->
       addresses "p-2" c = true ->
       c = UpdateTask "p-2" (mkTaskUpdate "A1" todo None None).
Proof.
  assert (Hk : has_id stored_forest "p-2").
  { exists (plain_task "p-2" "A1" 4 (Some "p-1") []). simpl. auto. }
  split; [reflexivity|]. split; [exact Hk|]. split; [reflexivity|].
  destruct (@C8_update_leaves_parent accepting "p" stored_forest stored_forest
              "p-2" (plain_task "p-2" "A1" 4 (Some "p-1") []) eq_refl Hk)
    as (_ & _ & _ & H).
  destruct (H (fun _ => None)) as (n' & _ & _ & Hc). exact Hc.
Defined.

(** ** Claims about the request checks of the route *)

(** C10, as stated, fails: a body that is JSON [null] has no [content] that
    is a string, and the route does not answer it with 400.  Destructuring
    [null] throws, the [catch] block answers 500; no call is made. *)
Lemma C10_null_body_counterexample :
  content_is_string JNull = false
  /\ PUT demo_env "p" (Some JNull)
     = (mkResponse 500 (ErrorBody (Some "Failed to save project content")), [])
  /\ resp_status (fst (PUT demo_env "p" (Some JNull))) <> 400.
Proof.
  split; [reflexivity|]. split; [reflexivity|]. discriminate.
Qed.

(** C10, amended: when the body's [content] is not a string, the route
    makes no call at all (no parse, no [deleteTask], [updateTask], [addTask],
    no file write) and answers with an error: 400 with the id check's error
    for an invalid project id; otherwise 500 for the body [null], and 400
    with "Content must be a string" for every other body. *)
Theorem C10_non_string_content_rejected env pid body :
  content_is_string body = false ->
  snd (PUT env pid (Some body)) = []
  /\ fst (PUT env pid (Some body))
     = if negb (valid (validateProjectId env pid)) then
         mkResponse 400 (ErrorBody (error (validateProjectId env pid)))
       else
         match body with
         | JNull =>
             mkResponse 500 (ErrorBody (Some "Failed to save project content"))
         | _ => mkResponse 400 (ErrorBody (Some "Content must be a string"))
         end.
Proof.
  unfold content_is_string, PUT, PUT_try, try_catch. intros H.
  destruct (valid (validateProjectId env pid)); simpl; [|split; reflexivity].
  unfold bind, ret, throw, respond. simpl.
  destruct body as [| | | | |fields]; simpl in *; try (split; reflexivity).
  destruct (assoc_get "content" fields) as [[| | |s| |]|]; simpl in *;
    try (split; reflexivity).
  discriminate.
Qed.

Lemma C10_non_string_content_rejected_witness :
  content_is_string (JObject [("content", JNumber 5)]) = false
  /\ PUT demo_env "p" (Some (JObject [("content", JNumber 5)]))
     = (mkResponse 400 (ErrorBody (Some "Content must be a string")), []).
Proof.
  split; [reflexivity|].
  destruct (@C10_non_string_content_rejected demo_env "p"
              (JObject [("content", JNumber 5)]) eq_refl) as [Hlog Hresp].
  apply injective_projections; [exact Hresp | exact Hlog].
Defined.

Example no_content_property :
  PUT demo_env "p" (Some (JObject []))
  = (mkResponse 400 (ErrorBody (Some "Content must be a string")), []).
Proof. reflexivity. Qed.

(** ** Claims about a document that does not parse *)

(** C3, as stated, fails: the route answers every parse error with the same
    response, so the offending line cannot be read from it.  Two documents
    whose errors are on line 1 and on line 2 get identical answers. *)
Lemma C3_line_number_counterexample :
  parseMarkdown demo_env "p" bad_document_1 ""
  = inl (mkParseValidationError 1 "Multiple #due tags")
  /\ parseMarkdown demo_env "p" bad_document_2 ""
     = inl (mkParseValidationError 2 "Multiple #due tags")
  /\ fst (PUT demo_env "p" (content_body bad_document_1))
     = mkResponse 500 (ErrorBody (Some "Failed to save project content"))
  /\ fst (PUT demo_env "p" (content_body bad_document_2))
     = mkResponse 500 (ErrorBody (Some "Failed to save project content"))
  /\ ~ surfaces_line_number demo_env.
Proof.
  assert (H1 : parseMarkdown demo_env "p" bad_document_1 ""
               = inl (mkParseValidationError 1 "Multiple #due tags"))
    by reflexivity.
  assert (H2 : parseMarkdown demo_env "p" bad_document_2 ""
               = inl (mkParseValidationError 2 "Multiple #due tags"))
    by reflexivity.
  repeat (split; [reflexivity|]).
  intros (line_of & H).
  pose proof (H "p" bad_document_1 _ H1) as E1.
  pose proof (H "p" bad_document_2 _ H2) as E2.
  change (fst (PUT demo_env "p" (content_body bad_document_2)))
    with (fst (PUT demo_env "p" (content_body bad_document_1))) in E2.
  rewrite E1 in E2. discriminate.
Qed.

(** C3, amended: when the route parses a submitted document and the parser
    raises, the error reaches the [catch] block, the answer is status 500
    with the fixed message, and the parser call is the only call made: no
    create, update, delete or file write. *)
Theorem C3_parse_error_leaves_store env pid body content e :
  In (ParseMarkdown pid content "") (snd (PUT env pid body)) ->
  parseMarkdown env pid content "" = inl e ->
  PUT_try env pid body [] = (Throw (ParseError e), [ParseMarkdown pid content ""])
  /\ PUT env pid body
     = (mkResponse 500 (ErrorBody (Some "Failed to save project content")),
        [ParseMarkdown pid content ""])
  /\ forall c, In c (snd (PUT env pid body)) -> is_mutation c = false.
Proof.
  intros Hin Hparse.
  assert (Htry : PUT_try env pid body []
                 = (Throw (ParseError e), [ParseMarkdown pid content ""])).
  { revert Hin. unfold PUT, try_catch, PUT_try.
    destruct (valid (validateProjectId env pid)); simpl; [|tauto].
    unfold bind, ret, throw, respond, call, note.
    destruct body as [b|]; simpl; [|tauto].
    destruct (destructure_content b) as [c|]; simpl; [|tauto].
    destruct (as_string c) as [text|]; simpl; [|tauto].
    destruct (useSupabase env); simpl.
    - destruct (truthy (auth env)); simpl; [|tauto].
      destruct (getProject env pid _) as [project|]; simpl; [|tauto].
      destruct (parseMarkdown env pid text "") as [e'|p] eqn:Ep; simpl.
      + intros [[= <-]|[]]. rewrite Hparse in Ep. now injection Ep as <-.
      + rewrite syncTasks_run.
        destruct (first_rejected (rejects env) _ _); cbn [fst snd];
          (intros Hin; apply in_app_or in Hin;
           destruct Hin as [[[= <-]|[]]|Hin]; [congruence|];
           apply until_rejected_in, sync_plan_mutations in Hin; discriminate).
    - destruct (validateFilePath env _); simpl; [|tauto].
      destruct (existsSync env _); simpl; [|tauto].
      destruct (rejects env [] _); simpl; intros [H|[]]; discriminate. }
  assert (Hput : PUT env pid body
                 = (mkResponse 500 (ErrorBody (Some "Failed to save project content")),
                    [ParseMarkdown pid content ""])).
  { unfold PUT, try_catch. now rewrite Htry. }
  split; [exact Htry|]. split; [exact Hput|].
  rewrite Hput. simpl. intros c [<-|[]]. reflexivity.
Qed.

Lemma C3_parse_error_leaves_store_witness :
  In (ParseMarkdown "p" bad_document_2 "")
     (snd (PUT demo_env "p" (content_body bad_document_2)))
  /\ PUT demo_env "p" (content_body bad_document_2)
     = (mkResponse 500 (ErrorBody (Some "Failed to save project content")),
        [ParseMarkdown "p" bad_document_2 ""]).
Proof.
  split; [left; reflexivity|].
  apply (@C3_parse_error_leaves_store demo_env "p" (content_body bad_document_2)
           bad_document_2 (mkParseValidationError 2 "Multiple #due tags")).
  - left. reflexivity.
  - reflexivity.
Defined.

(** A document that parses, in the same setting: the store calls follow. *)
Example PUT_edited_document :
  PUT demo_env "p" (content_body "# Proj
- [ ] A
- [ ] B")
  = (json_success,
     [ ParseMarkdown "p" "# Proj
- [ ] A
- [ ] B" "";
       DeleteTask "p-3";
       UpdateTask "p-1" (mkTaskUpdate "A" todo None None);
       UpdateTask "p-2" (mkTaskUpdate "B" todo None None) ]).
Proof. reflexivity. Qed.

(** The same request against a store that rejects the first update: the
    deletion has been made, the second update has not, and the answer is the
    fixed 500. *)
Example PUT_edited_document_rejected :
  PUT (mkEnv (validateProjectId demo_env)
             (NEXT_PUBLIC_SUPABASE_URL demo_env) (NEXT_PUBLIC_SUPABASE_ANON_KEY demo_env)
             (SUPABASE_SERVICE_ROLE_KEY demo_env) (USE_SUPABASE demo_env)
             (auth demo_env) (getProject demo_env) (parseMarkdown demo_env)
             (getUserDataDir demo_env) (path_join demo_env)
             (validateFilePath demo_env) (existsSync demo_env)
             (fun _ c => match c with UpdateTask _ _ => true | _ => false end))
      "p" (content_body "# Proj
- [ ] A
- [ ] B")
  = (mkResponse 500 (ErrorBody (Some "Failed to save project content")),
     [ ParseMarkdown "p" "# Proj
- [ ] A
- [ ] B" "";
       DeleteTask "p-3";
       UpdateTask "p-1" (mkTaskUpdate "A" todo None None) ]).
Proof. reflexivity. Qed.

(** ** Facts about strings and the matchers *)

Lemma append_nil_r (s : string) : (s ++ "")%string = s.
Proof. induction s; simpl; congruence. Qed.

Lemma append_assoc (a b c : string) : ((a ++ b) ++ c)%string = (a ++ b ++ c)%string.
Proof. induction a; simpl; congruence. Qed.

Lemma strip_prefix_iff p s r : strip_prefix p s = Some r <-> s = (p ++ r)%string.
Proof.
  revert s. induction p as [|a p IH]; intros s; simpl.
  - split; congruence.
  - destruct s as [|b s]; [split; discriminate|].
    destruct (Ascii.eqb_spec a b) as [->|Hne].
    + rewrite IH. split; congruence.
    + split; [discriminate | congruence].
Qed.

Lemma strip_prefix_app p r : strip_prefix p (p ++ r) = Some r.
Proof. now apply strip_prefix_iff. Qed.

Lemma search_sound A (pat : string -> option (A * string)) s pre a rest :
  search pat s = Some (pre, a, rest) ->
  exists mid, s = (pre ++ mid)%string /\ pat mid = Some (a, rest).
Proof.
  revert pre. induction s as [|c s IH]; intros pre; simpl.
  - destruct (pat "") as [[a0 r0]|] eqn:E; [|discriminate].
    intros [= <- <- <-]. exists "". auto.
  - destruct (pat (String c s)) as [[a0 r0]|] eqn:E.
    + intros [= <- <- <-]. exists (String c s). auto.
    + destruct (search pat s) as [[[pre' a'] rest']|]; [|discriminate].
      intros [= <- <- <-]. destruct (IH pre' eq_refl) as (mid & -> & Hm).
      exists mid. auto.
Qed.

Lemma occurrences_zero_search A (pat : string -> option (A * string)) s :
  occurrences pat s = 0 <-> search pat s = None.
Proof.
  induction s as [|c s IH]; simpl.
  - destruct (pat "") as [[a r]|]; split; (discriminate || reflexivity).
  - destruct (pat (String c s)) as [[a r]|].
    + split; discriminate.
    + simpl. rewrite IH. destruct (search pat s) as [[[pre a] rest]|];
        split; (discriminate || reflexivity).
Qed.

Lemma occurrences_pos_exec A (pat : string -> option (A * string)) s :
  0 < occurrences pat s -> exists a, exec pat s = Some a.
Proof.
  intros H. unfold exec.
  destruct (search pat s) as [[[pre a] rest]|] eqn:E; eauto.
  apply occurrences_zero_search in E. lia.
Qed.

Lemma exec_none_occurrences A (pat : string -> option (A * string)) s :
  exec pat s = None <-> occurrences pat s = 0.
Proof.
  rewrite occurrences_zero_search. unfold exec.
  destruct (search pat s) as [[[pre a] rest]|]; split; (discriminate || reflexivity).
Qed.

Lemma take_digits_sound n : forall s ds rest,
  take_digits n s = Some (ds, rest) ->
  s = (ds ++ rest)%string /\ String.length ds = n
  /\ forall i c, String.get i ds = Some c -> is_digit c = true.
Proof.
  induction n as [|n IH]; intros s ds rest; simpl.
  - intros [= <- <-]. repeat split. intros i c. destruct i; discriminate.
  - destruct s as [|c s]; [discriminate|].
    destruct (is_digit c) eqn:Hc; [|discriminate].
    destruct (take_digits n s) as [[ds' rest']|] eqn:E; [|discriminate].
    intros [= <- <-]. destruct (IH _ _ _ E) as (-> & Hlen & Hall).
    repeat split; simpl; auto.
    intros [|i] c'; simpl; [congruence | apply Hall].
Qed.

Lemma DUE_DATE_PATTERN_sound s date rest :
  DUE_DATE_PATTERN s = Some (date, rest) ->
  s = ("#due:" ++ date ++ rest)%string /\ digit_shape date = true.
Proof.
  unfold DUE_DATE_PATTERN.
  destruct (strip_prefix "#due:" s) as [s1|] eqn:E1; [|discriminate].
  destruct (take_digits 4 s1) as [[y s2]|] eqn:E2; [|discriminate].
  destruct (strip_prefix "-" s2) as [s3|] eqn:E3; [|discriminate].
  destruct (take_digits 2 s3) as [[m s4]|] eqn:E4; [|discriminate].
  destruct (strip_prefix "-" s4) as [s5|] eqn:E5; [|discriminate].
  destruct (take_digits 2 s5) as [[d s6]|] eqn:E6; [|discriminate].
  intros [= <- <-].
  apply strip_prefix_iff in E1, E3, E5. subst s s2 s4.
  apply take_digits_sound in E2, E4, E6.
  destruct E2 as (-> & Ly & Hy), E4 as (-> & Lm & Hm), E6 as (-> & Ld & Hd).
  split.
  - repeat (progress (simpl; rewrite ?append_assoc)). reflexivity.
  - destruct y as [|y1 [|y2 [|y3 [|y4 [|? ?]]]]]; try discriminate.
    destruct m as [|m1 [|m2 [|? ?]]]; try discriminate.
    destruct d as [|d1 [|d2 [|? ?]]]; try discriminate.
    simpl.
    rewrite (Hy 0 y1 eq_refl), (Hy 1 y2 eq_refl), (Hy 2 y3 eq_refl), (Hy 3 y4 eq_refl).
    rewrite (Hm 0 m1 eq_refl), (Hm 1 m2 eq_refl).
    rewrite (Hd 0 d1 eq_refl), (Hd 1 d2 eq_refl). reflexivity.
Qed.

Lemma DUE_DATE_PATTERN_complete date rest :
  digit_shape date = true ->
  DUE_DATE_PATTERN ("#due:" ++ date ++ rest) = Some (date, rest).
Proof.
  destruct date as [|y1 [|y2 [|y3 [|y4 [|h1 [|m1 [|m2 [|h2 [|d1 [|d2 [|? ?]]]]]]]]]]];
    try discriminate.
  simpl. intros H. rewrite !andb_true_iff in H.
  repeat match goal with
         | E : _ /\ _ |- _ => destruct E
         end.
  repeat match goal with
         | E : Ascii.eqb _ _ = true |- _ => apply Ascii.eqb_eq in E; subst
         end.
  unfold DUE_DATE_PATTERN. simpl.
  repeat match goal with
         | E : is_digit _ = true |- _ => rewrite E; clear E
         end.
  reflexivity.
Qed.

Lemma REPEAT_FREQUENCY_PATTERN_sound s f rest :
  REPEAT_FREQUENCY_PATTERN s = Some (f, rest) ->
  s = ("#repeat:" ++ frequency_name f ++ rest)%string.
Proof.
  unfold REPEAT_FREQUENCY_PATTERN.
  destruct (strip_prefix "#repeat:" s) as [s1|] eqn:E1; [|discriminate].
  apply strip_prefix_iff in E1. subst s.
  destruct (strip_prefix "daily" s1) as [r|] eqn:E2.
  { intros [= <- <-]. apply strip_prefix_iff in E2. now subst. }
  destruct (strip_prefix "weekly" s1) as [r|] eqn:E3.
  { intros [= <- <-]. apply strip_prefix_iff in E3. now subst. }
  destruct (strip_prefix "monthly" s1) as [r|] eqn:E4; [|discriminate].
  intros [= <- <-]. apply strip_prefix_iff in E4. now subst.
Qed.

Lemma REPEAT_FREQUENCY_PATTERN_complete f rest :
  REPEAT_FREQUENCY_PATTERN ("#repeat:" ++ frequency_name f ++ rest) = Some (f, rest).
Proof.
  unfold REPEAT_FREQUENCY_PATTERN. rewrite strip_prefix_app. destruct f; reflexivity.
Qed.

(** A match somewhere in the text is counted. *)
Lemma occurrences_match A (pat : string -> option (A * string)) pre mid a rest :
  pat mid = Some (a, rest) -> 1 <= occurrences pat (pre ++ mid).
Proof.
  intros Hm. induction pre as [|c pre IH]; simpl.
  - destruct mid; simpl; rewrite Hm; lia.
  - lia.
Qed.

(** The only match of a text is the one that the search finds. *)
Lemma occurrences_one_search A (pat : string -> option (A * string)) pre mid a rest :
  pat mid = Some (a, rest) ->
  occurrences pat (pre ++ mid) <= 1 ->
  search pat (pre ++ mid) = Some (pre, a, rest).
Proof.
  intros Hm. induction pre as [|c pre IH]; intros Hocc.
  - simpl. destruct mid; simpl; now rewrite Hm.
  - pose proof (occurrences_match pat pre mid Hm) as Hge.
    simpl in *.
    destruct (pat (String c (pre ++ mid))) as [[a' r']|]; [lia|].
    rewrite IH by lia. reflexivity.
Qed.

Lemma occurrences_one_exec A (pat : string -> option (A * string)) pre mid a rest :
  pat mid = Some (a, rest) ->
  occurrences pat (pre ++ mid) <= 1 ->
  exec pat (pre ++ mid) = Some a.
Proof.
  intros Hm Hocc. unfold exec.
  now rewrite (occurrences_one_search pat pre mid Hm Hocc).
Qed.

Lemma exec_sound A (pat : string -> option (A * string)) s a :
  exec pat s = Some a ->
  exists pre mid rest, s = (pre ++ mid)%string /\ pat mid = Some (a, rest).
Proof.
  unfold exec.
  destruct (search pat s) as [[[pre a'] rest]|] eqn:E; [|discriminate].
  intros [= ->]. apply search_sound in E. destruct E as (mid & -> & Hm).
  now exists pre, mid, rest.
Qed.

Lemma exec_match A (pat : string -> option (A * string)) pre mid a rest :
  pat mid = Some (a, rest) -> exec pat (pre ++ mid) <> None.
Proof.
  intros Hm E. apply exec_none_occurrences in E.
  pose proof (occurrences_match pat pre mid Hm). lia.
Qed.

(** ** Claims about the due-date pattern *)

(** C5, as stated, fails: the pattern takes any two digits for the month and
    any two for the day; [#due:2025-13-40] is matched and its date string is
    the one extracted. *)
Lemma C5_range_counterexample :
  exec DUE_DATE_PATTERN "Pay rent #due:2025-13-40" = Some "2025-13-40"
  /\ month_day_in_range "2025-13-40" = false
  /\ ~ (forall text date, exec DUE_DATE_PATTERN text = Some date ->
                          month_day_in_range date = true).
Proof.
  split; [reflexivity|]. split; [reflexivity|].
  intros H. specialize (H "Pay rent #due:2025-13-40" "2025-13-40" eq_refl).
  discriminate.
Qed.

(** C5, amended: at a position of a line the pattern matches exactly a tag
    [#due:] followed by four digits, a hyphen, two digits, a hyphen and two
    digits, and nothing beyond the digit shape is checked.  So a date
    extracted from a line is the date of such a tag of the line; a line that
    holds such a tag, anywhere, is matched; and when the tag is the only one
    of the line, its date is the one extracted, whatever the values of the
    month and day digits. *)
Theorem C5_digit_shape_only :
  (forall s date rest,
      DUE_DATE_PATTERN s = Some (date, rest)
      <-> s = ("#due:" ++ date ++ rest)%string /\ digit_shape date = true)
  /\ (forall text date,
         exec DUE_DATE_PATTERN text = Some date ->
         digit_shape date = true
         /\ exists pre post, text = (pre ++ "#due:" ++ date ++ post)%string)
  /\ (forall pre date post,
         digit_shape date = true ->
         let text := (pre ++ "#due:" ++ date ++ post)%string in
         exec DUE_DATE_PATTERN text <> None
         /\ (occurrences DUE_DATE_PATTERN text = 1 ->
             exec DUE_DATE_PATTERN text = Some date)).
Proof.
  split; [|split].
  - intros s date rest. split.
    + apply DUE_DATE_PATTERN_sound.
    + intros [-> Hs]. now apply DUE_DATE_PATTERN_complete.
  - intros text date H. apply exec_sound in H.
    destruct H as (pre & mid & rest & -> & Hm).
    apply DUE_DATE_PATTERN_sound in Hm. destruct Hm as [-> Hs].
    split; auto. now exists pre, rest.
  - intros pre date post Hs text. split.
    + apply exec_match with (a := date) (rest := post).
      now apply DUE_DATE_PATTERN_complete.
    + intros Hocc. apply occurrences_one_exec with (rest := post).
      * now apply DUE_DATE_PATTERN_complete.
      * unfold text in Hocc. lia.
Qed.

(** Dates that no calendar has are extracted like any other. *)
Example due_february_31 :
  exec DUE_DATE_PATTERN "File taxes #due:2025-02-31" = Some "2025-02-31".
Proof. reflexivity. Qed.

Example due_one_digit_month_is_no_tag :
  exec DUE_DATE_PATTERN "File taxes #due:2025-2-31" = None.
Proof. reflexivity. Qed.

Example due_anywhere_in_the_line :
  exec DUE_DATE_PATTERN "Pay rent #due:2025-11-23 (landlord)" = Some "2025-11-23".
Proof. reflexivity. Qed.

Example due_out_of_range_extracted :
  extractTags "Pay rent #due:2025-13-40"
  = inr (mkTags "Pay rent" (Some "2025-13-40") None).
Proof. reflexivity. Qed.

Example due_month_00_extracted :
  extractTags "Plan #due:2025-00-99 #repeat:weekly"
  = inr (mkTags "Plan" (Some "2025-00-99") (Some weekly)).
Proof. reflexivity. Qed.

(** ** Claims about the Tag Extractor *)

(** C4: a line on which [#due] or [#repeat] appears more than once is a
    validation error.  A successful extraction has seen each tag at most
    once, returns a value exactly for the kinds that appear, and the value is
    that of the tag: the date of any due tag of the line, the frequency of
    any repeat tag of the line.  A line with exactly one tag of each kind
    succeeds, and the two values returned are those of its two tags. *)
Theorem C4_tag_uniqueness :
  (forall text,
      1 < occurrences DUE_DATE_PATTERN text
      \/ 1 < occurrences REPEAT_FREQUENCY_PATTERN text ->
      exists e, extractTags text = inl e)
  /\ (forall text tags,
         extractTags text = inr tags ->
         occurrences DUE_DATE_PATTERN text <= 1
         /\ occurrences REPEAT_FREQUENCY_PATTERN text <= 1
         /\ (tag_dueDate tags = None <-> occurrences DUE_DATE_PATTERN text = 0)
         /\ (tag_repeatFrequency tags = None
             <-> occurrences REPEAT_FREQUENCY_PATTERN text = 0)
         /\ (forall pre d post,
                text = (pre ++ "#due:" ++ d ++ post)%string ->
                digit_shape d = true ->
                tag_dueDate tags = Some d)
         /\ (forall pre f post,
                text = (pre ++ "#repeat:" ++ frequency_name f ++ post)%string ->
                tag_repeatFrequency tags = Some f))
  /\ (forall text pre1 d post1 pre2 f post2,
         text = (pre1 ++ "#due:" ++ d ++ post1)%string ->
         digit_shape d = true ->
         text = (pre2 ++ "#repeat:" ++ frequency_name f ++ post2)%string ->
         occurrences DUE_DATE_PATTERN text = 1 ->
         occurrences REPEAT_FREQUENCY_PATTERN text = 1 ->
         exists c, extractTags text = inr (mkTags c (Some d) (Some f))).
Proof.
  assert (Hdue : forall text pre d post,
             text = (pre ++ "#due:" ++ d ++ post)%string ->
             digit_shape d = true ->
             occurrences DUE_DATE_PATTERN text <= 1 ->
             exec DUE_DATE_PATTERN text = Some d).
  { intros text pre d post -> Hs Hocc.
    apply occurrences_one_exec with (rest := post); auto.
    now apply DUE_DATE_PATTERN_complete. }
  assert (Hrep : forall text pre f post,
             text = (pre ++ "#repeat:" ++ frequency_name f ++ post)%string ->
             occurrences REPEAT_FREQUENCY_PATTERN text <= 1 ->
             exec REPEAT_FREQUENCY_PATTERN text = Some f).
  { intros text pre f post -> Hocc.
    apply occurrences_one_exec with (rest := post); auto.
    apply REPEAT_FREQUENCY_PATTERN_complete. }
  unfold extractTags, MAX_DUE_TAG_COUNT, MAX_REPEAT_TAG_COUNT.
  split; [|split].
  - intros text H.
    destruct (Nat.ltb_spec 1 (occurrences DUE_DATE_PATTERN text)); eauto.
    destruct (Nat.ltb_spec 1 (occurrences REPEAT_FREQUENCY_PATTERN text)); eauto.
    lia.
  - intros text tags.
    destruct (Nat.ltb_spec 1 (occurrences DUE_DATE_PATTERN text)); [discriminate|].
    destruct (Nat.ltb_spec 1 (occurrences REPEAT_FREQUENCY_PATTERN text));
      [discriminate|].
    intros [= <-]. cbn [tag_dueDate tag_repeatFrequency].
    split; [assumption|]. split; [assumption|].
    split; [apply exec_none_occurrences|]. split; [apply exec_none_occurrences|].
    split.
    + intros pre d post E Hs. now apply (Hdue text pre d post).
    + intros pre f post E. now apply (Hrep text pre f post).
  - intros text pre1 d post1 pre2 f post2 E1 Hs E2 Hd Hr.
    rewrite Hd, Hr. simpl.
    rewrite (Hdue text pre1 d post1 E1 Hs) by lia.
    rewrite (Hrep text pre2 f post2 E2) by lia.
    eauto.
Qed.

Example two_due_tags_rejected :
  extractTags "Buy milk #due:2025-11-23 #due:2025-11-24" = inl DuplicateDueTag.
Proof. reflexivity. Qed.

Example two_repeat_tags_rejected :
  extractTags "Stretch #repeat:daily #repeat:weekly" = inl DuplicateRepeatTag.
Proof. reflexivity. Qed.

Example one_tag_of_each_kind :
  extractTags "Take vitamins #due:2025-11-20 #repeat:daily"
  = inr (mkTags "Take vitamins" (Some "2025-11-20") (Some daily)).
Proof. reflexivity. Qed.

Example tags_in_any_position :
  extractTags "#repeat:weekly Team meeting #due:2025-11-22 (room 4)"
  = inr (mkTags "Team meeting  (room 4)" (Some "2025-11-22") (Some weekly)).
Proof. reflexivity. Qed.

(** ** Claims about the Line Classifier *)

(** C7: a line is classified as a section exactly when it is an H2 header
    (it starts with [## ]), whatever its text; [Todo], [Doing] and [Done]
    stand for their status, any other text for [todo]; and the builder takes
    every such line as a section boundary with that status. *)
Theorem C7_h2_is_section :
  (forall line name,
      classify line = Section name <-> line = ("## " ++ name)%string)
  /\ (forall line name,
         classify line = Section name <-> H2_HEADER_PATTERN line = Some name)
  /\ section_status "Todo" = todo
  /\ section_status "Doing" = doing
  /\ section_status "Done" = done
  /\ (forall name, name <> "Doing" -> name <> "Done" -> section_status name = todo)
  /\ (forall key b n name,
         build_line key b n ("## " ++ name)
         = inr (set_section b (section_status name))).
Proof.
  assert (Hcl : forall line name,
             classify line = Section name <-> H2_HEADER_PATTERN line = Some name).
  { intros line name. unfold classify, H1_HEADER_PATTERN, H2_HEADER_PATTERN.
    destruct (strip_prefix "# " line) as [t|] eqn:E1.
    - apply strip_prefix_iff in E1. subst line. simpl. split; discriminate.
    - destruct (strip_prefix "## " line) as [nm|] eqn:E2.
      + split; congruence.
      + destruct (TASK_LINE_PATTERN line) as [[[i c] t]|]; split; discriminate. }
  split; [|split; [exact Hcl|]].
  - intros line name. rewrite Hcl. apply strip_prefix_iff.
  - split; [reflexivity|]. split; [reflexivity|]. split; [reflexivity|]. split.
    + intros name H1 H2. unfold section_status.
      destruct (String.eqb_spec name "Doing"); [congruence|].
      destruct (String.eqb_spec name "Done"); [congruence|]. reflexivity.
    + intros key b n name. unfold build_line.
      assert (H : classify ("## " ++ name) = Section name) by now apply Hcl.
      now rewrite H.
Qed.

Example unrecognized_section_is_a_boundary :
  classify "## Later" = Section "Later" /\ section_status "Later" = todo.
Proof. split; reflexivity. Qed.


(** ** Calendar arithmetic of the Recurrence Engine *)

Lemma days_in_month_bounds y m : 28 <= days_in_month y m <= 31.
Proof.
  unfold days_in_month.
  do 12 (destruct m as [|m]; [destruct (is_leap_year y); lia|]). lia.
Qed.

Lemma valid_date_iff d :
  valid_date d = true
  <-> 1 <= month d <= 12 /\ 1 <= day d <= days_in_month (year d) (month d).
Proof.
  unfold valid_date. rewrite !andb_true_iff, !Nat.leb_le. tauto.
Qed.

Lemma days_before_month_succ y m :
  1 <= m -> days_before_month y (S m) = days_before_month y m + days_in_month y m.
Proof. destruct m; [lia | reflexivity]. Qed.

Lemma days_before_december y : days_before_month y 12 + 31 = year_length y.
Proof.
  unfold year_length. simpl. unfold days_in_month.
  destruct (is_leap_year y); reflexivity.
Qed.

(** The day after a calendar date is a calendar date, the next in number. *)
Lemma next_day_spec d :
  valid_date d = true ->
  valid_date (next_day d) = true /\ day_number (next_day d) = S (day_number d).
Proof.
  rewrite !valid_date_iff. destruct d as [y m dd]. unfold next_day, day_number.
  cbn [year month day]. intros [Hm Hd].
  pose proof (days_in_month_bounds y m) as Hb.
  destruct (Nat.ltb_spec dd (days_in_month y m)); cbn [year month day].
  - split; lia.
  - destruct (Nat.ltb_spec m 12); cbn [year month day].
    + pose proof (days_in_month_bounds y (S m)).
      rewrite days_before_month_succ by lia. split; lia.
    + assert (E : m = 12) by lia. subst m.
      pose proof (days_before_december y).
      change (days_in_month y 12) with 31 in *.
      change (days_in_month (S y) 1) with 31.
      change (days_before_month (S y) 1) with 0.
      change (days_before_year (S y)) with (days_before_year y + year_length y).
      split; lia.
Qed.

Lemma add_days_spec n : forall d,
  valid_date d = true ->
  valid_date (add_days n d) = true /\ day_number (add_days n d) = day_number d + n.
Proof.
  induction n as [|n IH]; intros d Hv; simpl.
  - split; [assumption | lia].
  - destruct (next_day_spec d Hv) as [Hv' Hn].
    destruct (IH _ Hv') as [Hv'' Hn'']. split; [assumption | lia].
Qed.

(** One month later: the following month (January of the following year
    after December), the same day of the month if that month has it, else
    its last day. *)
Lemma add_month_spec d :
  valid_date d = true ->
  let d' := add_month d in
  valid_date d' = true
  /\ (year d', month d')
     = (if (month d <? 12)%nat then (year d, S (month d)) else (S (year d), 1))
  /\ day d' = Nat.min (day d) (days_in_month (year d') (month d')).
Proof.
  rewrite valid_date_iff. destruct d as [y m dd]. cbn [year month day].
  intros [Hm Hd]. unfold add_month. cbn [year month day].
  pose proof (days_in_month_bounds y (S m)).
  pose proof (days_in_month_bounds (S y) 1).
  destruct (Nat.ltb_spec m 12); cbn [year month day];
    (split; [|split; reflexivity]); apply valid_date_iff; cbn [year month day]; lia.
Qed.

Lemma next_date_spec f d :
  valid_date d = true ->
  valid_date (next_date f d) = true /\ advanced f d (next_date f d).
Proof.
  intros Hv. destruct f; unfold next_date, advanced.
  - exact (add_days_spec 1 d Hv).
  - exact (add_days_spec 7 d Hv).
  - destruct (add_month_spec d Hv) as (H1 & H2 & H3). auto.
Qed.

(** The written form of a date of the first ten thousand years reads back
    as that date. *)
Lemma digit_value_char n : n < 10 -> digit_value (digit_char n) = n.
Proof.
  intros H. do 10 (destruct n as [|n]; [reflexivity|]). lia.
Qed.

Lemma is_digit_char n : n < 10 -> is_digit (digit_char n) = true.
Proof.
  intros H. do 10 (destruct n as [|n]; [reflexivity|]). lia.
Qed.

Lemma parse_format_date d :
  year d / 1000 < 10 -> month d < 100 -> day d < 100 ->
  parse_date (format_date d) = Some d.
Proof.
  intros Hy Hm Hd. destruct d as [y m dd]. cbn [year month day] in *.
  unfold format_date, pad4, pad2. cbn [year month day append].
  assert (B : forall n, n mod 10 < 10) by (intros; apply Nat.mod_upper_bound; lia).
  assert (E1000 : y / 1000 = y / 10 / 10 / 10).
  { rewrite !Nat.Div0.div_div. reflexivity. }
  assert (E100 : y / 100 = y / 10 / 10).
  { rewrite !Nat.Div0.div_div. reflexivity. }
  rewrite E1000 in *. rewrite E100.
  pose proof (Nat.div_mod_eq y 10) as D1.
  pose proof (Nat.div_mod_eq (y / 10) 10) as D2.
  pose proof (Nat.div_mod_eq (y / 10 / 10) 10) as D3.
  pose proof (Nat.div_mod_eq m 10) as D4.
  pose proof (Nat.div_mod_eq dd 10) as D5.
  assert (Hm1 : m / 10 < 10) by (apply Nat.Div0.div_lt_upper_bound; lia).
  assert (Hd1 : dd / 10 < 10) by (apply Nat.Div0.div_lt_upper_bound; lia).
  rewrite (Nat.mod_small (y / 10 / 10 / 10) 10) by lia.
  rewrite (Nat.mod_small (m / 10) 10) by lia.
  rewrite (Nat.mod_small (dd / 10) 10) by lia.
  pose proof (B (y / 10 / 10)) as Bb. pose proof (B (y / 10)) as Bc.
  pose proof (B y) as Be. pose proof (B m) as Bm. pose proof (B dd) as Bd.
  clear E1000 E100 B.
  revert D1 D2 D3 D4 D5 Hy Hm1 Hd1 Bb Bc Be Bm Bd.
  generalize (y / 10 / 10 / 10) as a, (y / 10 / 10 mod 10) as b,
    (y / 10 mod 10) as c, (y mod 10) as e, (m / 10) as m1, (m mod 10) as m2,
    (dd / 10) as d1, (dd mod 10) as d2.
  intros.
  unfold parse_date, digit_shape.
  rewrite !is_digit_char by assumption. cbn [andb Ascii.eqb Bool.eqb].
  rewrite !digit_value_char by assumption.
  f_equal. f_equal; lia.
Qed.

(** ** Day numbers tell dates apart *)

Lemma days_before_month_mono y m1 m2 :
  1 <= m1 -> m1 < m2 ->
  days_before_month y m1 + days_in_month y m1 <= days_before_month y m2.
Proof.
  intros H1 Hlt. induction m2 as [|m2 IH]; [lia|].
  rewrite days_before_month_succ by lia.
  destruct (Nat.eq_dec m1 m2) as [->|Hne]; [lia|].
  assert (m1 < m2) by lia. specialize (IH H). lia.
Qed.

Lemma days_before_month_end y m :
  1 <= m <= 12 -> days_before_month y m + days_in_month y m <= year_length y.
Proof.
  intros Hm. pose proof (days_before_december y) as H12.
  destruct (Nat.eq_dec m 12) as [->|Hne].
  - change (days_in_month y 12) with 31. lia.
  - pose proof (@days_before_month_mono y m 12). lia.
Qed.

Lemma days_before_year_mono y1 y2 :
  y1 < y2 -> days_before_year y1 + year_length y1 <= days_before_year y2.
Proof.
  intros Hlt. induction y2 as [|y2 IH]; [lia|].
  change (days_before_year (S y2)) with (days_before_year y2 + year_length y2).
  destruct (Nat.eq_dec y1 y2) as [->|Hne]; [lia|].
  assert (y1 < y2) by lia. specialize (IH H). lia.
Qed.

Lemma year_length_bounds y : 365 <= year_length y <= 366.
Proof. unfold year_length. destruct (is_leap_year y); lia. Qed.

Lemma day_number_bounds d :
  valid_date d = true ->
  days_before_year (year d) < day_number d
  /\ day_number d <= days_before_year (year d) + year_length (year d).
Proof.
  rewrite valid_date_iff. unfold day_number. intros [Hm Hd].
  pose proof (@days_before_month_end (year d) (month d) Hm). lia.
Qed.

(** Two calendar dates with the same day number are the same date. *)
Lemma day_number_injective d1 d2 :
  valid_date d1 = true -> valid_date d2 = true ->
  day_number d1 = day_number d2 -> d1 = d2.
Proof.
  intros V1 V2 E.
  pose proof (day_number_bounds d1 V1) as B1.
  pose proof (day_number_bounds d2 V2) as B2.
  apply valid_date_iff in V1, V2.
  destruct d1 as [y1 m1 dd1], d2 as [y2 m2 dd2].
  unfold day_number in *. cbn [year month day] in *.
  assert (Ey : y1 = y2).
  { destruct (Nat.lt_trichotomy y1 y2) as [H|[H|H]]; auto.
    - pose proof (@days_before_year_mono y1 y2 H). lia.
    - pose proof (@days_before_year_mono y2 y1 H). lia. }
  subst y2.
  assert (Em : m1 = m2).
  { destruct (Nat.lt_trichotomy m1 m2) as [H|[H|H]]; auto.
    - pose proof (@days_before_month_mono y1 m1 m2). lia.
    - pose proof (@days_before_month_mono y1 m2 m1). lia. }
  subst m2. f_equal. lia.
Qed.

(** The next date is the only calendar date that is so much later. *)
Lemma advanced_unique f d d1 d2 :
  valid_date d1 = true -> valid_date d2 = true ->
  advanced f d d1 -> advanced f d d2 -> d1 = d2.
Proof.
  intros V1 V2. destruct f; unfold advanced.
  - intros E1 E2. apply day_number_injective; auto. lia.
  - intros E1 E2. apply day_number_injective; auto. lia.
  - destruct d1 as [y1 m1 dd1], d2 as [y2 m2 dd2]. cbn [year month day].
    intros [E1 F1] [E2 F2]. rewrite <- E2 in E1. injection E1 as -> ->.
    f_equal. lia.
Qed.

Lemma next_date_year f d :
  valid_date d = true -> year (next_date f d) <= S (year d).
Proof.
  intros V. destruct (next_date_spec f d V) as [V' A].
  destruct f; unfold advanced in A.
  - unfold next_date, add_days, next_day.
    destruct (_ <? _)%nat; [cbn; lia|]. destruct (_ <? _)%nat; cbn; lia.
  - pose proof (day_number_bounds d V) as B.
    pose proof (day_number_bounds _ V') as B'.
    pose proof (year_length_bounds (S (year d))) as L.
    destruct (Nat.le_gt_cases (year (next_date weekly d)) (S (year d))) as [H|H];
      [exact H|].
    pose proof (@days_before_year_mono (S (year d)) _ H) as M.
    change (days_before_year (S (year d)))
      with (days_before_year (year d) + year_length (year d)) in M.
    lia.
  - unfold next_date in *. destruct A as [A _].
    destruct (month d <? 12)%nat; injection A as A _; rewrite A; lia.
Qed.

(** ** Dates as they are written *)

Lemma reads_as_format d :
  year d / 1000 < 10 -> month d < 100 -> day d < 100 ->
  reads_as (format_date d) d.
Proof.
  intros Hy Hm Hd. destruct d as [y m dd]. cbn [year month day] in *.
  unfold reads_as, format_date, pad4, pad2.
  cbn [year month day append String.length substring].
  assert (B : forall n, n mod 10 < 10) by (intros; apply Nat.mod_upper_bound; lia).
  assert (E1000 : y / 1000 = y / 10 / 10 / 10).
  { rewrite !Nat.Div0.div_div. reflexivity. }
  assert (E100 : y / 100 = y / 10 / 10).
  { rewrite !Nat.Div0.div_div. reflexivity. }
  rewrite E1000 in *. rewrite E100.
  pose proof (Nat.div_mod_eq y 10) as D1.
  pose proof (Nat.div_mod_eq (y / 10) 10) as D2.
  pose proof (Nat.div_mod_eq (y / 10 / 10) 10) as D3.
  pose proof (Nat.div_mod_eq m 10) as D4.
  pose proof (Nat.div_mod_eq dd 10) as D5.
  assert (Hm1 : m / 10 < 10) by (apply Nat.Div0.div_lt_upper_bound; lia).
  assert (Hd1 : dd / 10 < 10) by (apply Nat.Div0.div_lt_upper_bound; lia).
  rewrite (Nat.mod_small (y / 10 / 10 / 10) 10) by lia.
  rewrite (Nat.mod_small (m / 10) 10) by lia.
  rewrite (Nat.mod_small (dd / 10) 10) by lia.
  pose proof (B (y / 10 / 10)) as Bb. pose proof (B (y / 10)) as Bc.
  pose proof (B y) as Be. pose proof (B m) as Bm. pose proof (B dd) as Bd.
  clear E1000 E100 B.
  revert D1 D2 D3 D4 D5 Hy Hm1 Hd1 Bb Bc Be Bm Bd.
  generalize (y / 10 / 10 / 10) as a, (y / 10 / 10 mod 10) as b,
    (y / 10 mod 10) as c, (y mod 10) as e, (m / 10) as m1, (m mod 10) as m2,
    (dd / 10) as d1, (dd mod 10) as d2.
  intros.
  unfold decimal_value.
  rewrite !is_digit_char by assumption.
  rewrite !digit_value_char by assumption.
  split; [reflexivity|]. split; [f_equal; lia|]. split; [reflexivity|].
  split; [f_equal; lia|]. split; [reflexivity|]. f_equal; lia.
Qed.

Lemma reads_as_parse s d : reads_as s d -> parse_date s = Some d.
Proof.
  unfold reads_as. intros (Hlen & Hy & H1 & Hm & H2 & Hd).
  destruct s as [|y1 [|y2 [|y3 [|y4 [|h1 [|m1 [|m2 [|h2 [|d1 [|d2 [|? ?]]]]]]]]]]];
    try discriminate.
  cbn [substring] in *. clear Hlen.
  injection H1 as ->. injection H2 as ->.
  unfold decimal_value in *.
  destruct (is_digit y1) eqn:Ey1; [|discriminate].
  destruct (is_digit y2) eqn:Ey2; [|discriminate].
  destruct (is_digit y3) eqn:Ey3; [|discriminate].
  destruct (is_digit y4) eqn:Ey4; [|discriminate].
  destruct (is_digit m1) eqn:Em1; [|discriminate].
  destruct (is_digit m2) eqn:Em2; [|discriminate].
  destruct (is_digit d1) eqn:Ed1; [|discriminate].
  destruct (is_digit d2) eqn:Ed2; [|discriminate].
  injection Hy as Hy. injection Hm as Hm. injection Hd as Hd.
  unfold parse_date, digit_shape.
  rewrite Ey1, Ey2, Ey3, Ey4, Em1, Em2, Ed1, Ed2. cbn [andb Ascii.eqb Bool.eqb].
  destruct d as [y m dd]. cbn [year month day] in *.
  revert Hy Hm Hd.
  generalize (digit_value y1) as a, (digit_value y2) as b, (digit_value y3) as c,
    (digit_value y4) as e, (digit_value m1) as f1, (digit_value m2) as f2,
    (digit_value d1) as g1, (digit_value d2) as g2.
  intros. f_equal. f_equal; lia.
Qed.

(** ** Claims about the Recurrence Engine *)

(** C6: for a completed task with a repeat frequency, the next occurrence
    keeps content, frequency and parent and has status todo.  If the task
    has a due date, written [YYYY-MM-DD], that is a calendar date, the next
    occurrence is due on the calendar date one day later (daily), seven days
    later (weekly), or on the same day of the following month, clamped to
    that month's length (monthly), written the same way; no other calendar
    date is so much later.  Without a due date the next occurrence has none,
    and there is no error.  (The year after the due date's is taken to have
    four digits.) *)
Theorem C6_next_occurrence task f :
  repeatFrequency task = Some f ->
  exists sk,
    nextOccurrence task = Some sk
    /\ sk_content sk = content task
    /\ sk_repeatFrequency sk = Some f
    /\ sk_parentId sk = parentId task
    /\ sk_status sk = todo
    /\ (dueDate task = None -> sk_dueDate sk = None)
    /\ (forall s d,
           dueDate task = Some s -> reads_as s d -> valid_date d = true ->
           S (year d) / 1000 < 10 ->
           exists s' d',
             sk_dueDate sk = Some s'
             /\ reads_as s' d'
             /\ valid_date d' = true
             /\ advanced f d d'
             /\ forall d'', valid_date d'' = true -> advanced f d d'' -> d'' = d').
Proof.
  intros Hf. unfold nextOccurrence. rewrite Hf.
  eexists. split; [reflexivity|]. cbn [sk_content sk_repeatFrequency sk_parentId
                                       sk_status sk_dueDate].
  repeat (split; [reflexivity|]). split.
  - intros ->. reflexivity.
  - intros s d -> Hr Hv Hy. rewrite (reads_as_parse Hr).
    destruct (next_date_spec f d Hv) as [Hv' Ha].
    exists (format_date (next_date f d)), (next_date f d).
    split; [reflexivity|]. split; [|split; [exact Hv'|split; [exact Ha|]]].
    + pose proof (next_date_year f d Hv) as Hle.
      apply valid_date_iff in Hv'.
      pose proof (days_in_month_bounds (year (next_date f d))
                                       (month (next_date f d))).
      apply reads_as_format; try lia.
      eapply Nat.le_lt_trans; [|exact Hy].
      now apply Nat.Div0.div_le_mono.
    + intros d'' Hv'' Ha''. now apply (advanced_unique f d).
Qed.

(** The daily task of the README, due 2025-11-23. *)
Lemma C6_next_occurrence_witness :
  repeatFrequency (repeating_task (Some "2025-11-23") daily (Some "p-1")) = Some daily
  /\ reads_as "2025-11-23" (mkDate 2025 11 23)
  /\ valid_date (mkDate 2025 11 23) = true
  /\ exists sk,
       nextOccurrence (repeating_task (Some "2025-11-23") daily (Some "p-1")) = Some sk
       /\ sk_parentId sk = Some "p-1"
       /\ sk_status sk = todo
       /\ exists s' d',
            sk_dueDate sk = Some s'
            /\ reads_as s' d'
            /\ valid_date d' = true
            /\ day_number d' = day_number (mkDate 2025 11 23) + 1.
Proof.
  assert (Hr : reads_as "2025-11-23" (mkDate 2025 11 23)).
  { unfold reads_as. repeat split; vm_compute; reflexivity. }
  assert (Hv : valid_date (mkDate 2025 11 23) = true) by (vm_compute; reflexivity).
  assert (Hy : S (year (mkDate 2025 11 23)) / 1000 < 10)
    by (vm_compute; repeat constructor).
  split; [reflexivity|]. split; [exact Hr|]. split; [exact Hv|].
  destruct (@C6_next_occurrence
              (repeating_task (Some "2025-11-23") daily (Some "p-1")) daily eq_refl)
    as (sk & H1 & _ & _ & H4 & H5 & _ & H7).
  exists sk. split; [exact H1|]. split; [exact H4|]. split; [exact H5|].
  destruct (H7 "2025-11-23" (mkDate 2025 11 23) eq_refl Hr Hv Hy)
    as (s' & d' & Hs & Hr' & Hv' & Ha & _).
  exists s', d'. auto.
Defined.

Example daily_2025_11_23 :
  option_map sk_dueDate
             (nextOccurrence (repeating_task (Some "2025-11-23") daily None))
  = Some (Some "2025-11-24").
Proof. reflexivity. Qed.

Example weekly_across_new_year :
  option_map sk_dueDate
             (nextOccurrence (repeating_task (Some "2024-12-29") weekly None))
  = Some (Some "2025-01-05").
Proof. reflexivity. Qed.

Example monthly_2025_01_31 :
  option_map sk_dueDate
             (nextOccurrence (repeating_task (Some "2025-01-31") monthly None))
  = Some (Some "2025-02-28").
Proof. reflexivity. Qed.

Example monthly_2024_01_31_leap :
  option_map sk_dueDate
             (nextOccurrence (repeating_task (Some "2024-01-31") monthly None))
  = Some (Some "2024-02-29").
Proof. reflexivity. Qed.

Example no_due_date_no_next_date :
  option_map sk_dueDate (nextOccurrence (repeating_task None weekly None))
  = Some None.
Proof. reflexivity. Qed.


(** ** White space and line terminators *)

Lemma length_append (a b : string) :
  String.length (a ++ b) = String.length a + String.length b.
Proof. induction a; simpl; auto. Qed.

Lemma strip_prefix_more p s r more :
  strip_prefix p s = Some r -> strip_prefix p (s ++ more) = Some (r ++ more)%string.
Proof.
  intros H. apply strip_prefix_iff in H. subst s.
  rewrite append_assoc. apply strip_prefix_app.
Qed.

Lemma strip_any_sound ps : forall s p rest,
  strip_any ps s = Some (p, rest) -> In p ps /\ s = (p ++ rest)%string.
Proof.
  induction ps as [|q ps IH]; intros s p rest; simpl; [discriminate|].
  destruct (strip_prefix q s) as [r|] eqn:E.
  - intros [= <- <-]. split; [now left | now apply strip_prefix_iff].
  - intros H. apply IH in H. tauto.
Qed.

(** What does not begin a text does not begin a shorter one. *)
Lemma strip_any_none_prefix ps a b :
  strip_any ps (a ++ b) = None -> strip_any ps a = None.
Proof.
  induction ps as [|q ps IH]; simpl; auto.
  destruct (strip_prefix q a) as [r|] eqn:E.
  - rewrite (strip_prefix_more _ _ b E). discriminate.
  - destruct (strip_prefix q (a ++ b)); [discriminate | exact IH].
Qed.

Lemma strip_any_some_more ps a b :
  strip_any ps a <> None -> strip_any ps (a ++ b) <> None.
Proof.
  intros H E. apply H. now apply strip_any_none_prefix with (b := b).
Qed.

(** No white-space character begins with another one. *)
Lemma strip_any_white_space p more :
  In p WHITE_SPACE -> strip_any WHITE_SPACE (p ++ more) = Some (p, more).
Proof.
  intros H. simpl in H.
  repeat (destruct H as [<-|H]; [reflexivity|]). contradiction.
Qed.

Lemma white_space_nonempty p : In p WHITE_SPACE -> 1 <= String.length p.
Proof.
  intros H. simpl in H.
  repeat (destruct H as [<-|H]; [simpl; lia|]). contradiction.
Qed.

Lemma strip_any_shorter ps s p rest :
  (forall q, In q ps -> 1 <= String.length q) ->
  strip_any ps s = Some (p, rest) -> String.length rest < String.length s.
Proof.
  intros Hne H. apply strip_any_sound in H. destruct H as [Hin ->].
  rewrite length_append. specialize (Hne p Hin). lia.
Qed.


Lemma span_of_sound n : forall s sp r,
  span_of WHITE_SPACE n s = (sp, r) -> s = (sp ++ r)%string /\ Blank sp.
Proof.
  induction n as [|n IH]; intros s sp r; cbn [span_of].
  - intros [= <- <-]. split; [reflexivity | constructor].
  - destruct (strip_any WHITE_SPACE s) as [[p rest]|] eqn:E.
    + destruct (span_of WHITE_SPACE n rest) as [sp' r'] eqn:E'.
      intros [= <- <-]. apply strip_any_sound in E. destruct E as [Hp ->].
      destruct (IH _ _ _ E') as [-> Hb].
      split; [now rewrite append_assoc | now constructor].
    + intros [= <- <-]. split; [reflexivity | constructor].
Qed.

Lemma span_of_maximal n : forall s sp r,
  String.length s <= n ->
  span_of WHITE_SPACE n s = (sp, r) -> strip_any WHITE_SPACE r = None.
Proof.
  induction n as [|n IH]; intros s sp r Hlen; cbn [span_of].
  - intros [= <- <-]. destruct s; [reflexivity | simpl in Hlen; lia].
  - destruct (strip_any WHITE_SPACE s) as [[p rest]|] eqn:E.
    + destruct (span_of WHITE_SPACE n rest) as [sp' r'] eqn:E'.
      intros [= <- <-].
      apply (IH rest sp' r'); auto.
      pose proof (@strip_any_shorter WHITE_SPACE s p rest
                    (@white_space_nonempty) E). lia.
    + intros [= <- <-]. exact E.
Qed.

Lemma span_of_blank indent :
  Blank indent ->
  forall n rest,
    String.length indent <= n -> strip_any WHITE_SPACE rest = None ->
    span_of WHITE_SPACE n (indent ++ rest) = (indent, rest).
Proof.
  intros Hb. induction Hb as [|p s Hp Hs IH]; intros n rest Hlen Hrest.
  - destruct n; cbn [span_of append]; [reflexivity | now rewrite Hrest].
  - rewrite length_append in Hlen. pose proof (@white_space_nonempty p Hp).
    destruct n as [|n]; [lia|].
    cbn [span_of]. rewrite append_assoc, strip_any_white_space by assumption.
    rewrite IH by (assumption || lia). reflexivity.
Qed.

Lemma span_space_app indent rest :
  Blank indent -> strip_any WHITE_SPACE rest = None ->
  span_space (indent ++ rest) = (indent, rest).
Proof.
  intros Hb Hrest. unfold span_space. apply span_of_blank; auto.
  rewrite length_append. lia.
Qed.

Lemma span_space_sound s indent rest :
  span_space s = (indent, rest) ->
  s = (indent ++ rest)%string /\ Blank indent
  /\ strip_any WHITE_SPACE rest = None.
Proof.
  unfold span_space. intros H.
  destruct (@span_of_sound _ s indent rest H) as [E Hb].
  repeat split; auto. now apply (@span_of_maximal (String.length s) s indent rest (le_n _) H).
Qed.

(** A line terminator begins with a line feed, a carriage return, or the
    first byte of U+2028 and U+2029. *)
Lemma terminator_head z t :
  strip_any LINE_TERMINATORS (String z t) <> None ->
  z = "010"%char \/ z = "013"%char \/ z = "226"%char.
Proof.
  unfold LINE_TERMINATORS. cbn [strip_any strip_prefix].
  destruct (Ascii.eqb_spec "010" z) as [ <- | H1 ]; [auto|].
  destruct (Ascii.eqb_spec "013" z) as [ <- | H2 ]; [auto|].
  destruct (Ascii.eqb_spec "226" z) as [ <- | H3 ]; [auto|].
  intros H. exfalso. now apply H.
Qed.

Lemma ends_or_breaks_iff tail :
  ends_or_breaks tail = true
  <-> tail = "" \/ strip_any LINE_TERMINATORS tail <> None.
Proof.
  unfold ends_or_breaks. destruct tail as [|z t].
  - split; auto.
  - destruct (strip_any LINE_TERMINATORS (String z t)); split; auto;
      try discriminate.
    + intros _. right. discriminate.
    + intros [H|H]; [discriminate | now exfalso].
Qed.

(** A text in which no terminator begins has none either when it goes on
    with a terminator, or ends. *)
Lemma terminator_not_across c t tail :
  ends_or_breaks tail = true ->
  strip_any LINE_TERMINATORS (String c t) = None ->
  strip_any LINE_TERMINATORS (String c (t ++ tail)) = None.
Proof.
  intros Htail. apply ends_or_breaks_iff in Htail.
  destruct Htail as [->|Htail]; [now rewrite append_nil_r|].
  destruct tail as [|z tail']; [now exfalso; apply Htail|].
  apply terminator_head in Htail.
  unfold LINE_TERMINATORS. cbn [strip_any strip_prefix].
  destruct (Ascii.eqb "010" c); [discriminate|].
  destruct (Ascii.eqb "013" c); [discriminate|].
  destruct (Ascii.eqb "226" c); [|reflexivity].
  destruct t as [|x [|y t']]; cbn [append strip_prefix].
  - intros _. destruct Htail as [ -> | [ -> | -> ] ]; reflexivity.
  - intros _. destruct (Ascii.eqb "128" x); [|reflexivity].
    destruct Htail as [ -> | [ -> | -> ] ]; reflexivity.
  - destruct (Ascii.eqb "128" x); [|reflexivity].
    destruct (Ascii.eqb "168" y); [discriminate|].
    destruct (Ascii.eqb "169" y); [discriminate|]. reflexivity.
Qed.

Lemma dot_star_app text tail :
  no_terminator text = true -> ends_or_breaks tail = true ->
  dot_star (text ++ tail) = text.
Proof.
  intros Ht Htail. induction text as [|c text IH]; cbn [append].
  - destruct tail as [|z t]; [reflexivity|].
    cbn [dot_star]. apply ends_or_breaks_iff in Htail.
    destruct Htail as [H|H]; [discriminate|].
    now destruct (strip_any LINE_TERMINATORS (String z t)).
  - cbn [no_terminator] in Ht.
    destruct (strip_any LINE_TERMINATORS (String c text)) eqn:E; [discriminate|].
    cbn [dot_star]. rewrite (@terminator_not_across c text tail Htail E).
    now rewrite IH.
Qed.

Lemma dot_star_sound s :
  no_terminator (dot_star s) = true
  /\ exists tail, s = (dot_star s ++ tail)%string /\ ends_or_breaks tail = true.
Proof.
  induction s as [|c s (IH1 & tail & IH2 & IH3)].
  - split; [reflexivity|]. now exists "".
  - cbn [dot_star].
    destruct (strip_any LINE_TERMINATORS (String c s)) as [m|] eqn:E.
    + split; [reflexivity|]. exists (String c s). split; [reflexivity|].
      apply ends_or_breaks_iff. right. rewrite E. discriminate.
    + split.
      * cbn [no_terminator].
        rewrite (@strip_any_none_prefix LINE_TERMINATORS
                   (String c (dot_star s)) tail);
          [exact IH1|].
        cbn [append]. now rewrite <- IH2.
      * exists tail. split; [cbn [append]; congruence | exact IH3].
Qed.

(** The parts of a line that the task-line pattern matches. *)
Lemma task_line_shape line indent checked text :
  TASK_LINE_PATTERN line = Some (indent, checked, text)
  <-> Blank indent
      /\ no_terminator text = true
      /\ exists tail,
           line = (indent ++ checkbox checked ++ text ++ tail)%string
           /\ ends_or_breaks tail = true.
Proof.
  unfold TASK_LINE_PATTERN. split.
  - destruct (span_space line) as [sp r0] eqn:E0.
    apply span_space_sound in E0. destruct E0 as (-> & Hsp & _).
    destruct (strip_prefix "- [" r0) as [r1|] eqn:E1; [|discriminate].
    apply strip_prefix_iff in E1. subst r0.
    destruct r1 as [|c r]; [discriminate|].
    destruct (Ascii.eqb_spec c "x") as [->|Hx].
    + destruct (strip_prefix "] " r) as [r3|] eqn:E3; [|discriminate].
      apply strip_prefix_iff in E3. subst r. intros [= <- <- <-].
      destruct (dot_star_sound r3) as (Hn & tail & Et & Htail).
      repeat split; auto. exists tail. split; auto.
      cbn [checkbox append]. now rewrite <- Et.
    + destruct (Ascii.eqb_spec c " ") as [->|Hs]; [|discriminate].
      destruct (strip_prefix "] " r) as [r3|] eqn:E3; [|discriminate].
      apply strip_prefix_iff in E3. subst r. intros [= <- <- <-].
      destruct (dot_star_sound r3) as (Hn & tail & Et & Htail).
      repeat split; auto. exists tail. split; auto.
      cbn [checkbox append]. now rewrite <- Et.
  - intros (Hsp & Hn & tail & -> & Htail).
    rewrite span_space_app; auto.
    + destruct checked; cbn [checkbox append strip_prefix Ascii.eqb Bool.eqb];
        now rewrite dot_star_app.
    + destruct checked; reflexivity.
Qed.

(** ** Trimming *)








Example trim_no_break_spaces :
  trim (String "194" (String "160" (String "032" (String "194" (String "160" "")))))
  = "".
Proof. reflexivity. Qed.

Example trim_keeps_inner_space :
  trim (String "194" (String "160" "New  name
")) = "New  name".
Proof. reflexivity. Qed.

(** ** The Tree Builder on rendered lines *)



Lemma settle_zero stack :
  forall carry roots, fst (settle 0 stack carry roots) = [].
Proof.
  induction stack as [|f rest IH]; intros carry roots; [reflexivity|].
  cbn [settle]. change (_ <? 0)%nat with false. apply IH.
Qed.













(** ** The lines of a rendered document *)











(** ** The sections of a rendered document *)



(** ** Identity recovery *)









(** ** Texts that read back *)

Lemma hash_free_no_match A (pat : string -> option (A * string)) s :
  (forall t a r, pat t = Some (a, r) -> exists t', t = String "#" t') ->
  hash_free s = true -> occurrences pat s = 0.
Proof.
  intros Hpat. induction s as [|c s IH]; cbn [hash_free occurrences].
  - intros _. destruct (pat "") as [[a r]|] eqn:E; [|reflexivity].
    destruct (Hpat _ _ _ E) as (t' & Ht). discriminate.
  - intros H. apply andb_prop in H. destruct H as [Hc Hs].
    rewrite (IH Hs).
    destruct (pat (String c s)) as [[a r]|] eqn:E; [|reflexivity].
    destruct (Hpat _ _ _ E) as (t' & Ht). injection Ht as -> _.
    discriminate.
Qed.

(** A task without tags whose content is trimmed, on one line and free of
    number signs reads back. *)
Lemma plain_reads_back t :
  dueDate t = None -> repeatFrequency t = None ->
  hash_free (content t) = true ->
  trim (content t) = content t ->
  no_terminator (content t) = true ->
  reads_back t.
Proof.
  intros Hd Hr Hh Ht Hn. unfold reads_back, task_text.
  rewrite Hd, Hr, !append_nil_r. split; [|exact Hn].
  assert (Odue : occurrences DUE_DATE_PATTERN (content t) = 0).
  { apply hash_free_no_match; auto. intros s a r E.
    apply DUE_DATE_PATTERN_sound in E. destruct E as [-> _].
    eexists. reflexivity. }
  assert (Orep : occurrences REPEAT_FREQUENCY_PATTERN (content t) = 0).
  { apply hash_free_no_match; auto. intros s a r E.
    apply REPEAT_FREQUENCY_PATTERN_sound in E. subst s.
    eexists. reflexivity. }
  unfold extractTags. rewrite Odue, Orep. cbn [Nat.ltb Nat.leb MAX_DUE_TAG_COUNT
    MAX_REPEAT_TAG_COUNT].
  rewrite (proj2 (exec_none_occurrences DUE_DATE_PATTERN (content t)) Odue).
  rewrite (proj2 (exec_none_occurrences REPEAT_FREQUENCY_PATTERN (content t)) Orep).
  unfold remove.
  rewrite (proj1 (occurrences_zero_search DUE_DATE_PATTERN (content t)) Odue).
  rewrite (proj1 (occurrences_zero_search REPEAT_FREQUENCY_PATTERN (content t)) Orep).
  now rewrite Ht.
Qed.

(** ** Claims about the round trip *)





Example end_to_end_scenario :
  parseDocument "p" sample_document None
  = inr (mkProject "p" "Proj" sample_forest "")
  /\ renderDocument "Proj" sample_forest = sample_document.
Proof. split; reflexivity. Qed.

(** Top-level tasks that are not grouped by status come back in another
    order. *)
Example ungrouped_forest_is_reordered :
  option_map (fun p => map content (tasks p))
    (match parseDocument "p"
             (renderDocument "Proj"
                [ plain_task "p-1" "Setup" 1 None [];
                  mkTask "p-2" "Ship" doing None None "- [ ] Ship" 2 None [];
                  plain_task "p-3" "Plan" 3 None [] ]) None with
     | inr p => Some p
     | inl _ => None
     end)
  = Some ["Setup"; "Plan"; "Ship"].
Proof. reflexivity. Qed.

(* ================================================================== *)
(** * Part III: further properties of the sources                      *)
(* ================================================================== *)

(** ** The synchronisation on special forests *)

Lemma removed_ids_none (exMap newMap : JsMap.t Task) :
  (forall k, JsMap.has k exMap = true -> JsMap.has k newMap = true) ->
  removed_ids exMap newMap = [].
Proof.
  intros H. unfold removed_ids.
  assert (G : forall l, (forall k, In k l -> JsMap.has k newMap = true) ->
                        filter (fun k => negb (JsMap.has k newMap)) l = []).
  { induction l as [|k l IH]; simpl; auto. intros Hl.
    rewrite (Hl k) by auto. simpl. auto. }
  apply G. intros k Hk. apply H. now apply JsMap_has_keys.
Qed.

Lemma removed_ids_all (exMap newMap : JsMap.t Task) :
  (forall k, JsMap.has k newMap = false) ->
  removed_ids exMap newMap = JsMap.keys exMap.
Proof.
  intros H. unfold removed_ids.
  induction (JsMap.keys exMap) as [|k l IH]; simpl; auto.
  rewrite H. simpl. now rewrite IH.
Qed.

(** The keys of the map the route builds are the ids of the forest in the
    order of their first appearance. *)
Lemma existsb_eqb_in k (seen : list string) :
  existsb (String.eqb k) seen = true <-> In k seen.
Proof.
  rewrite existsb_exists. split.
  - intros (x & Hx & E). apply String.eqb_eq in E. now subst.
  - intros H. exists k. split; auto. apply String.eqb_refl.
Qed.

Lemma fold_set_task_keys l :
  forall m seen,
    (forall k, In k seen <-> In k (JsMap.keys m)) ->
    JsMap.keys (fold_left set_task l m)
    = JsMap.keys m ++ first_occurrences seen (map id l).
Proof.
  induction l as [|t l IH]; intros m seen Hseen; simpl.
  - now rewrite app_nil_r.
  - unfold set_task at 2.
    destruct (existsb (String.eqb (id t)) seen) eqn:E.
    + apply existsb_eqb_in, Hseen, JsMap_has_keys in E.
      rewrite (IH _ seen).
      * now rewrite JsMap_keys_set, E.
      * intros k. now rewrite JsMap_keys_set, E.
    + assert (Hno : JsMap.has (id t) m = false).
      { destruct (JsMap.has (id t) m) eqn:Hh; auto.
        apply JsMap_has_keys, Hseen, existsb_eqb_in in Hh. congruence. }
      rewrite (IH _ (id t :: seen)).
      * rewrite JsMap_keys_set, Hno, <- app_assoc. reflexivity.
      * intros k. rewrite JsMap_keys_set, Hno, in_app_iff. simpl.
        rewrite Hseen. tauto.
Qed.

Lemma mapTasks_keys ts : JsMap.keys (mapTasks ts JsMap.empty) = ids_in_order ts.
Proof.
  rewrite mapTasks_preorder. unfold ids_in_order.
  now rewrite (fold_set_task_keys (preorder ts) JsMap.empty []).
Qed.

Lemma ids_in_order_NoDup ts : NoDup (ids_in_order ts).
Proof. rewrite <- mapTasks_keys. apply mapTasks_NoDup. Qed.

Lemma ids_in_order_in ts k : In k (ids_in_order ts) <-> has_id ts k.
Proof. rewrite <- mapTasks_keys, <- JsMap_has_keys. apply mapTasks_has. Qed.

(** X1: when the parsed forest carries exactly the ids of the existing one,
    nothing is deleted and nothing is created: the route makes one
    [updateTask] for each distinct id, in the order the ids first appear in
    the parsed document, with the fields of the task kept for the id, up to
    the first call that rejects. *)
Theorem same_ids_only_updates rejects pid existing incoming :
  (forall k, has_id existing k <-> has_id incoming k) ->
  exists updates,
    sync_log rejects pid existing incoming
    = until_rejected rejects []
        (map (fun kn => UpdateTask (fst kn) (update_of (snd kn))) updates)
    /\ map fst updates = ids_in_order incoming
    /\ NoDup (ids_in_order incoming)
    /\ (forall k n, In (k, n) updates -> incoming_entry incoming k = Some n).
Proof.
  intros Hsame. exists (mapTasks incoming JsMap.empty).
  split; [|split; [apply mapTasks_keys|split; [apply ids_in_order_NoDup|]]].
  - rewrite sync_log_eq. f_equal. unfold sync_plan, mapExistingTasks, mapNewTasks.
    cbv zeta. rewrite removed_ids_none.
    + simpl. apply map_ext_in. intros [k n] Hin. simpl.
      assert (Hk : JsMap.has k (mapTasks existing JsMap.empty) = true).
      { apply mapTasks_has, Hsame, mapTasks_has. now apply JsMap_has_own_key in Hin. }
      now rewrite Hk.
    + intros k Hk. apply mapTasks_has, Hsame, mapTasks_has, Hk.
  - intros k n Hin. unfold incoming_entry, mapNewTasks.
    apply JsMap_in_get; auto. apply mapTasks_NoDup.
Qed.

Lemma same_ids_only_updates_witness :
  (forall k, has_id stored_forest k <-> has_id stored_forest k)
  /\ exists updates,
       sync_log accepting "p" stored_forest stored_forest
       = until_rejected accepting []
           (map (fun kn => UpdateTask (fst kn) (update_of (snd kn))) updates)
       /\ map fst updates = ["p-1"; "p-2"; "p-3"].
Proof.
  split; [tauto|].
  destruct (@same_ids_only_updates accepting "p" stored_forest stored_forest
              (fun k => conj (fun H => H) (fun H => H)))
    as (updates & H1 & H2 & _).
  exists updates. split; [exact H1 | exact H2].
Defined.

Example same_forest_again :
  sync_log accepting "p" stored_forest stored_forest
  = [ UpdateTask "p-1" (mkTaskUpdate "A" todo None None);
      UpdateTask "p-2" (mkTaskUpdate "A1" todo None None);
      UpdateTask "p-3" (mkTaskUpdate "B" todo None None) ].
Proof. reflexivity. Qed.

(** X2: a document without tasks asks for the deletion of every stored
    task: one [deleteTask] for each distinct id of the existing forest, in
    the order the ids first appear in it, up to the first that rejects, and
    no other call. *)
Theorem empty_document_deletes_all rejects pid existing :
  sync_log rejects pid existing []
  = until_rejected rejects [] (map DeleteTask (ids_in_order existing))
  /\ NoDup (ids_in_order existing)
  /\ (forall k, In k (ids_in_order existing) <-> has_id existing k).
Proof.
  split; [|split; [apply ids_in_order_NoDup | apply ids_in_order_in]].
  rewrite sync_log_eq. f_equal. unfold sync_plan, mapExistingTasks, mapNewTasks.
  cbv zeta. simpl. rewrite app_nil_r.
  rewrite removed_ids_all by reflexivity. now rewrite mapTasks_keys.
Qed.

(** X3: against a project without tasks nothing is deleted or updated: the
    route makes one [addTask] for each distinct id of the parsed forest, in
    the order the ids first appear, with the fields and the [parentId] of the
    task kept for the id, up to the first call that rejects. *)
Theorem empty_project_creates_all rejects pid incoming :
  exists adds,
    sync_log rejects pid [] incoming
    = until_rejected rejects [] (map (fun kn => add_of pid (snd kn)) adds)
    /\ map fst adds = ids_in_order incoming
    /\ (forall k n, In (k, n) adds ->
                    incoming_entry incoming k = Some n
                    /\ In n (preorder incoming) /\ id n = k).
Proof.
  exists (mapTasks incoming JsMap.empty).
  split; [|split; [apply mapTasks_keys|]].
  - rewrite sync_log_eq. f_equal. unfold sync_plan, mapExistingTasks, mapNewTasks.
    cbv zeta. simpl. apply map_ext. intros [k n]. reflexivity.
  - intros k n Hin.
    assert (Hget : JsMap.get k (mapTasks incoming JsMap.empty) = Some n)
      by (apply JsMap_in_get; auto; apply mapTasks_NoDup).
    split; [exact Hget|]. now apply mapTasks_get.
Qed.

Example new_project_filled :
  sync_log accepting "p" [] stored_forest
  = [ AddTask "p" "A" todo None None None;
      AddTask "p" "A1" todo None (Some "p-1") None;
      AddTask "p" "B" todo None None None ].
Proof. reflexivity. Qed.

(** ** Ids that repeat, and the order of the calls *)

Lemma fold_set_task_snoc l t m :
  fold_left set_task (l ++ [t]) m = set_task (fold_left set_task l m) t.
Proof. now rewrite fold_left_app. Qed.

Lemma snoc_eq_split A (l pre post : list A) (t n : A) :
  l ++ [t] = pre ++ n :: post ->
  (post = [] /\ pre = l /\ n = t)
  \/ exists post', post = post' ++ [t] /\ l = pre ++ n :: post'.
Proof.
  intros H.
  assert (D : post = [] \/ exists post' x, post = post' ++ [x]).
  { destruct post as [|y post]; [now left|]. right.
    destruct (@exists_last _ (y :: post)) as (post' & x & E); [discriminate|].
    now exists post', x. }
  destruct D as [->|(post' & x & ->)].
  - apply app_inj_tail in H. destruct H as [-> ->]. left. auto.
  - right. rewrite app_comm_cons, app_assoc in H.
    apply app_inj_tail in H. destruct H as [-> ->]. exists post'. auto.
Qed.

Lemma fold_set_task_get_last k n l :
  JsMap.get k (fold_left set_task l JsMap.empty) = Some n
  <-> exists pre post, l = pre ++ n :: post /\ id n = k
                       /\ forall t, In t post -> id t <> k.
Proof.
  revert n. induction l as [|t l IH] using rev_ind; intros n.
  - simpl. split; [discriminate|]. intros (pre & post & H & _).
    now destruct pre.
  - rewrite fold_set_task_snoc. unfold set_task at 1.
    destruct (String.eqb_spec (id t) k) as [E|E].
    + rewrite <- E, JsMap_get_set_same. split.
      * intros [= <-]. exists l, []. split; [reflexivity|]. split; [reflexivity|].
        intros ? [].
      * intros (pre & post & H & Hid & Hpost).
        apply snoc_eq_split in H.
        destruct H as [(_ & _ & ->)|(post' & -> & _)]; [reflexivity|].
        exfalso. apply (Hpost t); [|congruence].
        apply in_or_app. right. now left.
    + rewrite JsMap_get_set_other by congruence. rewrite IH. split.
      * intros (pre & post & -> & Hid & Hpost).
        exists pre, (post ++ [t]). split; [now rewrite <- app_assoc|].
        split; auto. intros x Hx. apply in_app_or in Hx.
        destruct Hx as [Hx|[<-|[]]]; auto.
      * intros (pre & post & H & Hid & Hpost).
        apply snoc_eq_split in H.
        destruct H as [(_ & _ & ->)|(post' & -> & ->)]; [congruence|].
        exists pre, post'. repeat split; auto.
        intros y Hy. apply Hpost. apply in_or_app. now left.
Qed.

(** X4: when several tasks of the parsed document carry the same id, the
    task the route keeps for that id (the one whose fields it sends) is the
    last of them in document order. *)
Theorem repeated_id_last_task_wins incoming k n :
  incoming_entry incoming k = Some n
  <-> exists pre post,
        preorder incoming = pre ++ n :: post /\ id n = k
        /\ forall t, In t post -> id t <> k.
Proof.
  unfold incoming_entry, mapNewTasks. rewrite mapTasks_preorder.
  apply fold_set_task_get_last.
Qed.

Example repeated_id_sends_last_fields :
  sync_log accepting "p" []
           [ plain_task "p-1" "first" 1 None []; plain_task "p-1" "second" 2 None [] ]
  = [ AddTask "p" "second" todo None None None ].
Proof. reflexivity. Qed.

Lemma fold_set_task_distinct l :
  forall m,
    NoDup (map id l) ->
    (forall t, In t l -> JsMap.has (id t) m = false) ->
    fold_left set_task l m = m ++ map (fun t => (id t, t)) l.
Proof.
  induction l as [|t l IH]; intros m Hnd Hm; simpl.
  - now rewrite app_nil_r.
  - inversion Hnd as [|? ? Hnotin Hnd']; subst.
    unfold set_task at 2. rewrite JsMap_set_absent by (apply Hm; now left).
    rewrite IH; auto.
    + now rewrite <- app_assoc.
    + intros x Hx. rewrite JsMap_has_app, Hm by now right. simpl.
      unfold JsMap.has. simpl.
      destruct (String.eqb_spec (id t) (id x)) as [E|E]; [|reflexivity].
      exfalso. apply Hnotin. rewrite E. now apply in_map.
Qed.

Lemma preorder_task_split t0 :
  forall t, In t (preorder_task t0) ->
            exists a b, preorder_task t0 = a ++ preorder_task t ++ b.
Proof.
  induction t0 as [t0 IH] using Task_forest_ind. intros t Hin.
  destruct t0 as [i c s d r raw ln p subs]. simpl in *.
  destruct Hin as [<-|Hin].
  - exists [], []. simpl. now rewrite app_nil_r.
  - apply in_flat_map in Hin. destruct Hin as (sub & Hsub & Hin).
    rewrite Forall_forall in IH.
    destruct (IH sub Hsub t Hin) as (a & b & E).
    apply in_split in Hsub. destruct Hsub as (l1 & l2 & ->).
    rewrite flat_map_app. simpl. rewrite E.
    exists (mkTask i c s d r raw ln p (l1 ++ sub :: l2)
              :: flat_map preorder_task l1 ++ a),
           (b ++ flat_map preorder_task l2).
    simpl. now rewrite <- !app_assoc.
Qed.

Lemma preorder_split ts t :
  In t (preorder ts) -> exists a b, preorder ts = a ++ preorder_task t ++ b.
Proof.
  unfold preorder. intros Hin. apply in_flat_map in Hin.
  destruct Hin as (t0 & Ht0 & Hin).
  destruct (preorder_task_split t0 t Hin) as (a & b & E).
  apply in_split in Ht0. destruct Ht0 as (l1 & l2 & ->).
  rewrite flat_map_app. simpl. rewrite E.
  exists (flat_map preorder_task l1 ++ a), (b ++ flat_map preorder_task l2).
  now rewrite <- !app_assoc.
Qed.

Lemma preorder_task_unfold t :
  preorder_task t = t :: flat_map preorder_task (subtasks t).
Proof. now destruct t. Qed.

Lemma preorder_parent_before_child ts t sub :
  In t (preorder ts) -> In sub (subtasks t) ->
  exists a b c, preorder ts = a ++ t :: b ++ sub :: c.
Proof.
  intros Ht Hsub.
  destruct (preorder_split ts t Ht) as (a & b & Ea).
  apply in_split in Hsub. destruct Hsub as (s1 & s2 & Es).
  rewrite Ea, (preorder_task_unfold t), Es, flat_map_app.
  cbn [flat_map]. rewrite (preorder_task_unfold sub).
  exists a, (flat_map preorder_task s1),
         ((flat_map preorder_task (subtasks sub) ++ flat_map preorder_task s2) ++ b).
  cbn [app]. rewrite <- !app_assoc. cbn [app]. now rewrite <- !app_assoc.
Qed.

(** X5: when the ids of the parsed forest are distinct, the add-or-update
    calls of the route are one per task in document order, after the
    deletions, so that the call for a task stands before the call for any of
    its subtasks; the route makes them in that order up to the first call
    that rejects. *)
Theorem calls_follow_document_order rejects pid existing incoming :
  NoDup (map id (preorder incoming)) ->
  let call_for t := upsert pid (mapExistingTasks existing JsMap.empty) (id t, t) in
  exists dels,
    sync_log rejects pid existing incoming
    = until_rejected rejects []
        (map DeleteTask dels ++ map call_for (preorder incoming))
    /\ (forall k, In k dels <-> has_id existing k /\ ~ has_id incoming k)
    /\ forall t sub,
         In t (preorder incoming) -> In sub (subtasks t) ->
         exists l1 l2 l3,
           map call_for (preorder incoming)
           = l1 ++ call_for t :: l2 ++ call_for sub :: l3.
Proof.
  intros Hnd call_for. unfold mapExistingTasks.
  exists (removed_ids (mapTasks existing JsMap.empty)
                      (mapTasks incoming JsMap.empty)).
  split; [|split; [intros k; apply removed_ids_spec|]].
  - rewrite sync_log_eq. f_equal. unfold sync_plan, mapExistingTasks, mapNewTasks.
    cbv zeta. f_equal.
    rewrite (mapTasks_preorder incoming), fold_set_task_distinct; auto.
    simpl. now rewrite map_map.
  - intros t sub Ht Hsub.
    destruct (preorder_parent_before_child incoming t sub Ht Hsub) as (a & b & c & ->).
    exists (map call_for a), (map call_for b), (map call_for c).
    rewrite !map_app. cbn [map]. rewrite !map_app. cbn [map]. reflexivity.
Qed.

Lemma calls_follow_document_order_witness :
  NoDup (map id (preorder stored_forest))
  /\ exists dels,
       sync_log accepting "p" edited_forest stored_forest
       = until_rejected accepting []
           (map DeleteTask dels
            ++ [ UpdateTask "p-1" (mkTaskUpdate "A" todo None None);
                 UpdateTask "p-2" (mkTaskUpdate "A1" todo None None);
                 AddTask "p" "B" todo None None None ]).
Proof.
  assert (H : NoDup (map id (preorder stored_forest))).
  { simpl. repeat constructor; simpl; intuition discriminate. }
  split; [exact H|].
  destruct (@calls_follow_document_order accepting "p" edited_forest stored_forest H)
    as (dels & E & _).
  exists dels. exact E.
Defined.

Example subtask_after_parent :
  sync_log accepting "p" edited_forest stored_forest
  = [ UpdateTask "p-1" (mkTaskUpdate "A" todo None None);
      UpdateTask "p-2" (mkTaskUpdate "A1" todo None None);
      AddTask "p" "B" todo None None None ].
Proof. reflexivity. Qed.

(** ** The route as a whole *)

(** X6: in Supabase mode the title of the submitted document is not
    stored: whatever title the parser reports, the route gives the same
    answer and makes the same calls. *)
Theorem title_of_document_is_not_synced env retitle pid body :
  PUT (with_parser env (fun p c f => retitled retitle (parseMarkdown env p c f)))
      pid body
  = PUT env pid body.
Proof.
  unfold PUT, try_catch, PUT_try, with_parser, useSupabase. simpl.
  destruct (valid (validateProjectId env pid)); simpl; [|reflexivity].
  unfold bind, ret, throw, respond, note.
  destruct body as [b|]; simpl; [|reflexivity].
  destruct (destructure_content b) as [c|]; simpl; [|reflexivity].
  destruct (as_string c) as [text|]; simpl; [|reflexivity].
  match goal with |- context [if ?u then _ else _] => destruct u end; simpl;
    [|reflexivity].
  destruct (truthy (auth env)); simpl; [|reflexivity].
  destruct (getProject env pid _) as [project|]; simpl; [|reflexivity].
  destruct (parseMarkdown env pid text "") as [e|p]; simpl; reflexivity.
Qed.

(** X7: an answer with status 400, 401 or 404 means that the route made no
    call at all: nothing was parsed, and neither the database nor the file
    system was touched. *)
Theorem rejected_request_makes_no_call env pid body :
  resp_status (fst (PUT env pid body)) = 400
  \/ resp_status (fst (PUT env pid body)) = 401
  \/ resp_status (fst (PUT env pid body)) = 404 ->
  snd (PUT env pid body) = [].
Proof.
  unfold PUT, try_catch, PUT_try.
  destruct (valid (validateProjectId env pid)); simpl; [|reflexivity].
  unfold bind, ret, throw, respond, call, note.
  destruct body as [b|]; simpl; [|reflexivity].
  destruct (destructure_content b) as [c|]; simpl; [|reflexivity].
  destruct (as_string c) as [text|]; simpl; [|reflexivity].
  destruct (useSupabase env); simpl.
  - destruct (truthy (auth env)); simpl; [|reflexivity].
    destruct (getProject env pid _) as [project|]; simpl; [|reflexivity].
    destruct (parseMarkdown env pid text "") as [e|p]; simpl.
    + intros [H|[H|H]]; discriminate.
    + rewrite syncTasks_run.
      destruct (first_rejected (rejects env) _ _); cbn [fst snd resp_status];
        intros [H|[H|H]]; discriminate.
  - destruct (validateFilePath env _); simpl; [|reflexivity].
    destruct (existsSync env _); simpl; [|reflexivity].
    destruct (rejects env [] _); simpl; intros [H|[H|H]]; discriminate.
Qed.

Lemma rejected_request_makes_no_call_witness :
  resp_status (fst (PUT demo_env "p" (Some (JObject [])))) = 400
  /\ snd (PUT demo_env "p" (Some (JObject []))) = [].
Proof.
  split; [reflexivity|].
  apply rejected_request_makes_no_call. left. reflexivity.
Defined.

(** X8: in file mode the route never parses the document and never asks
    who the user is: whatever it answers is not 401, and either it made no
    call, or its one call is the write of the submitted text, as it is, to
    the project's file; it then answers success, unless the write throws,
    which is answered with the fixed 500. *)
Theorem file_mode_writes_verbatim env pid body :
  useSupabase env = false ->
  resp_status (fst (PUT env pid body)) <> 401
  /\ (snd (PUT env pid body) = []
      \/ exists content,
           option_map as_string
                      (match body with
                       | Some b => destructure_content b
                       | None => None
                       end) = Some (Some content)
           /\ snd (PUT env pid body) = [WriteFile (project_file env pid) content]
           /\ fst (PUT env pid body)
              = if rejects env [] (WriteFile (project_file env pid) content)
                then mkResponse 500 (ErrorBody (Some "Failed to save project content"))
                else json_success).
Proof.
  intros Hmode. unfold PUT, try_catch, PUT_try, project_file.
  destruct (valid (validateProjectId env pid)); simpl;
    [|split; [discriminate | now left]].
  unfold bind, ret, throw, respond, call.
  destruct body as [b|]; simpl; [|split; [discriminate | now left]].
  destruct (destructure_content b) as [c|]; simpl;
    [|split; [discriminate | now left]].
  destruct (as_string c) as [text|]; simpl; [|split; [discriminate | now left]].
  rewrite Hmode.
  destruct (validateFilePath env _); simpl; [|split; [discriminate | now left]].
  destruct (existsSync env _); simpl; [|split; [discriminate | now left]].
  destruct (rejects env [] _) eqn:Er; simpl;
    (split; [discriminate|]); right; exists text; rewrite Er; auto.
Qed.

Lemma file_mode_writes_verbatim_witness :
  useSupabase file_env = false
  /\ PUT file_env "p" (content_body bad_document_1)
     = (json_success, [WriteFile "data/p.md" bad_document_1]).
Proof.
  split; [reflexivity|].
  destruct (@file_mode_writes_verbatim file_env "p" (content_body bad_document_1)
              eq_refl) as [_ [H|(content & _ & H1 & H2)]].
  - discriminate H.
  - reflexivity.
Defined.

(** ** Reading and writing through the route *)

(** X9: for a body whose [content] is a string, [PUT] turns a request away
    (400, 401 or 404) exactly when [GET] does, with the same status and the
    same error, and then makes no call. *)
Theorem put_rejects_what_get_rejects env renv pid content :
  rejected (get_status (GET env renv pid))
  \/ rejected (resp_status (fst (PUT env pid (content_body content)))) ->
  exists e,
    GET env renv pid
    = mkGetResponse (resp_status (fst (PUT env pid (content_body content))))
                    (GetError e)
    /\ resp_body (fst (PUT env pid (content_body content))) = ErrorBody e
    /\ snd (PUT env pid (content_body content)) = [].
Proof.
  unfold rejected, GET, PUT, try_catch, PUT_try, project_file, content_body.
  destruct (valid (validateProjectId env pid)); simpl; [|eauto].
  unfold bind, ret, throw, respond, call, note. simpl.
  destruct (useSupabase env); simpl.
  - destruct (truthy (auth env)); simpl; [|eauto].
    destruct (getProject env pid _) as [project|]; simpl; [|eauto].
    destruct (parseMarkdown env pid content "") as [e|p]; simpl.
    + intros [[H|[H|H]]|[H|[H|H]]]; discriminate.
    + rewrite syncTasks_run.
      destruct (first_rejected (rejects env) _ _); cbn [fst snd resp_status];
        intros [[H|[H|H]]|[H|[H|H]]]; discriminate.
  - destruct (validateFilePath env _); simpl; [|eauto].
    destruct (existsSync env _); simpl; [|eauto].
    destruct (rejects env [] _); simpl;
      (destruct (readFileSync renv _); simpl;
       intros [[H|[H|H]]|[H|[H|H]]]; discriminate).
Qed.

Lemma put_rejects_what_get_rejects_witness :
  rejected (get_status (GET (on_file_system file_env []) (reading (fun _ => "") []) "p"))
  /\ PUT (on_file_system file_env []) "p" (content_body "# Proj")
     = (mkResponse 404 (ErrorBody (Some "Project not found")), []).
Proof.
  assert (H : rejected (get_status (GET (on_file_system file_env [])
                                        (reading (fun _ => "") []) "p")))
    by (right; right; reflexivity).
  split; [exact H|].
  destruct (@put_rejects_what_get_rejects (on_file_system file_env [])
              (reading (fun _ => "") []) "p" "# Proj" (or_introl H))
    as (e & _ & _ & _).
  reflexivity.
Defined.

(** X10: in file mode, what [PUT] saves is what [GET] reads back: when
    [PUT] answers success for a text, [GET] on the resulting file system
    answers 200 with that very text, whatever the file held before and
    whether or not the text parses; no other file has changed. *)
Theorem file_mode_round_trip env render fs pid content :
  useSupabase env = false ->
  let result := PUT (on_file_system env fs) pid (content_body content) in
  let fs' := after_calls fs (snd result) in
  fst result = json_success ->
  snd result = [WriteFile (project_file env pid) content]
  /\ GET (on_file_system env fs') (reading render fs') pid
     = mkGetResponse 200 (GetContent content)
  /\ forall other, other <> project_file env pid ->
                   JsMap.get other fs' = JsMap.get other fs.
Proof.
  intros Hmode result fs'.
  assert (Hmode' : forall f, useSupabase (on_file_system env f) = false)
    by (intros; exact Hmode).
  assert (Hfile' : forall f, project_file (on_file_system env f) pid
                             = project_file env pid) by reflexivity.
  set (filePath := project_file env pid) in *.
  assert (Hres : fst result = json_success ->
                 valid (validateProjectId env pid) = true
                 /\ validateFilePath env filePath = true
                 /\ snd result = [WriteFile filePath content]).
  { unfold result, PUT, try_catch, PUT_try. cbn [validateProjectId on_file_system].
    destruct (valid (validateProjectId env pid)); simpl; [|discriminate].
    unfold bind, ret, throw, respond, call. simpl.
    rewrite Hmode'.
    change (path_join env (getUserDataDir env (auth env)) (pid ++ ".md")%string)
      with filePath.
    destruct (validateFilePath env filePath); simpl; [|discriminate].
    destruct (JsMap.has filePath fs); simpl; [|discriminate].
    destruct (rejects env [] _); simpl; [discriminate|]. auto. }
  intros Hok. destruct (Hres Hok) as (Hvalid & Hpath & Hlog).
  assert (Efs : fs' = JsMap.set filePath content fs).
  { unfold fs'. rewrite Hlog. reflexivity. }
  split; [exact Hlog|]. split.
  - unfold GET. cbn [validateProjectId on_file_system]. rewrite Hvalid.
    cbn [negb]. rewrite Hmode', Hfile'. fold filePath.
    cbn [validateFilePath existsSync on_file_system readFileSync reading].
    rewrite Hpath. cbn [negb]. rewrite Efs.
    unfold JsMap.has. now rewrite JsMap_get_set_same.
  - intros other Hne. rewrite Efs. now apply JsMap_get_set_other.
Qed.

Lemma file_mode_round_trip_witness :
  useSupabase file_env = false
  /\ fst (PUT (on_file_system file_env [("data/p.md", "# Old")]) "p"
              (content_body "# Proj")) = json_success
  /\ GET (on_file_system file_env [("data/p.md", "# Proj")])
         (reading (fun _ => "") [("data/p.md", "# Proj")]) "p"
     = mkGetResponse 200 (GetContent "# Proj").
Proof.
  split; [reflexivity|]. split; [reflexivity|].
  exact (proj1 (proj2 (@file_mode_round_trip file_env (fun _ => "")
                         [("data/p.md", "# Old")] "p" "# Proj"
                         eq_refl eq_refl))).
Defined.

(** A file system that cannot be written to: the write is attempted, the
    answer is the fixed 500. *)
Example read_only_file_system :
  PUT (mkEnv (validateProjectId file_env) None None None None None
             (getProject file_env) (parseMarkdown file_env)
             (getUserDataDir file_env) (path_join file_env)
             (validateFilePath file_env) (existsSync file_env)
             (fun _ _ => true))
      "p" (content_body "# Proj")
  = (mkResponse 500 (ErrorBody (Some "Failed to save project content")),
     [WriteFile "data/p.md" "# Proj"]).
Proof. reflexivity. Qed.

(** ** The patterns of [lib/constants] *)

(** X11: the task-line pattern matches exactly the lines made of leading
    white space, a checkbox [- [x] ] or [- [ ] ], and text; it returns the
    white space as it is, whether the box is checked, and the text up to the
    first line terminator (or the end of the line).  White space is that of
    [\s], no-break space and the other Unicode spaces included; the
    terminators are line feed, carriage return, U+2028 and U+2029. *)
Theorem task_line_pattern_parts line indent checked text :
  TASK_LINE_PATTERN line = Some (indent, checked, text)
  <-> Blank indent
      /\ no_terminator text = true
      /\ exists tail,
           line = (indent ++ checkbox checked ++ text ++ tail)%string
           /\ ends_or_breaks tail = true.
Proof. apply task_line_shape. Qed.

Example no_break_space_indents :
  TASK_LINE_PATTERN (String "194" (String "160" "  - [ ] Call"))
  = Some (String "194" (String "160" "  "), false, "Call").
Proof. reflexivity. Qed.

Example line_separator_ends_content :
  TASK_LINE_PATTERN
    ("- [x] Call" ++ String "226" (String "128" (String "168" "back")))
  = Some ("", true, "Call").
Proof. reflexivity. Qed.

(** X12: a line that the task-line pattern matches still matches, with the
    same three parts, when a carriage return follows it (a line of a CRLF
    document cut at the line feeds): the carriage return is not content. *)
Theorem task_line_ignores_carriage_return line parts :
  TASK_LINE_PATTERN line = Some parts ->
  TASK_LINE_PATTERN (line ++ String "013" "") = Some parts.
Proof.
  destruct parts as [[indent checked] text]. intros H.
  apply task_line_shape in H.
  destruct H as (Hsp & Hn & tail & -> & Htail).
  apply task_line_shape. repeat split; auto.
  exists (tail ++ String "013" "")%string. split.
  - now rewrite !append_assoc.
  - apply ends_or_breaks_iff. right.
    apply ends_or_breaks_iff in Htail. destruct Htail as [->|Htail].
    + discriminate.
    + now apply strip_any_some_more.
Qed.

Lemma task_line_ignores_carriage_return_witness :
  TASK_LINE_PATTERN "    - [x] Setup" = Some ("    ", true, "Setup")
  /\ TASK_LINE_PATTERN (String.append "    - [x] Setup" (String "013" ""))
     = Some ("    ", true, "Setup").
Proof.
  split; [reflexivity|].
  apply (@task_line_ignores_carriage_return "    - [x] Setup" ("    ", true, "Setup")).
  reflexivity.
Defined.

(** X13: the three line patterns exclude one another: no line is matched
    by two of the H1 pattern, the H2 pattern and the task-line pattern. *)
Theorem line_patterns_exclusive line :
  (H1_HEADER_PATTERN line <> None ->
   H2_HEADER_PATTERN line = None /\ TASK_LINE_PATTERN line = None)
  /\ (H2_HEADER_PATTERN line <> None ->
      H1_HEADER_PATTERN line = None /\ TASK_LINE_PATTERN line = None)
  /\ (TASK_LINE_PATTERN line <> None ->
      H1_HEADER_PATTERN line = None /\ H2_HEADER_PATTERN line = None).
Proof.
  unfold H1_HEADER_PATTERN, H2_HEADER_PATTERN.
  assert (A1 : forall t, strip_prefix "# " line = Some t ->
                         strip_prefix "## " line = None
                         /\ TASK_LINE_PATTERN line = None).
  { intros t H. apply strip_prefix_iff in H. subst line. split; reflexivity. }
  assert (A2 : forall t, strip_prefix "## " line = Some t ->
                         strip_prefix "# " line = None
                         /\ TASK_LINE_PATTERN line = None).
  { intros t H. apply strip_prefix_iff in H. subst line. split; reflexivity. }
  split; [|split].
  - destruct (strip_prefix "# " line) as [t|] eqn:E; [|congruence].
    intros _. now apply (A1 t).
  - destruct (strip_prefix "## " line) as [t|] eqn:E; [|congruence].
    intros _. now apply (A2 t).
  - intros Ht. split.
    + destruct (strip_prefix "# " line) as [t|] eqn:E; [|reflexivity].
      destruct (A1 t eq_refl) as [_ H]. congruence.
    + destruct (strip_prefix "## " line) as [t|] eqn:E; [|reflexivity].
      destruct (A2 t eq_refl) as [_ H]. congruence.
Qed.

(** X14: the repeat pattern matches exactly a text that starts with
    [#repeat:] and one of [daily], [weekly], [monthly], and returns that
    frequency; what follows the name is not looked at, so a longer word that
    starts with a frequency name is a tag too. *)
Theorem repeat_pattern_exact s f rest :
  REPEAT_FREQUENCY_PATTERN s = Some (f, rest)
  <-> s = ("#repeat:" ++ frequency_name f ++ rest)%string.
Proof.
  split; [apply REPEAT_FREQUENCY_PATTERN_sound|].
  intros ->. unfold REPEAT_FREQUENCY_PATTERN.
  rewrite strip_prefix_app. destruct f; reflexivity.
Qed.

Example repeat_has_no_word_boundary :
  exec REPEAT_FREQUENCY_PATTERN "Report #repeat:dailyish" = Some daily.
Proof. reflexivity. Qed.

(** ** The project route *)



Example title_update_that_throws :
  PUT_title demo_env
            (mkProjectEnv (validateProjectTitle demo_project_env)
                          (getAllProjectsFromDir demo_project_env)
                          (fun _ => true))
            "p" (Some (JObject [("title", JString "New name")]))
  = (mkResponse 500 (ErrorBody (Some "Failed to update project")),
     [UpdateProject "user-1" "p" "New name"]).
Proof. reflexivity. Qed.

(** Without a signed-in user the project route answers 401 and makes
    no call in either storage mode, whatever the body is, even one that is
    not JSON: the user is looked at before the body is read. *)
Lemma title_update_needs_user env penv pid body :
  valid (validateProjectId env pid) = true ->
  truthy (auth env) = false ->
  PUT_title env penv pid body = (json_error (Some "Unauthorized") 401, []).
Proof.
  intros Hv Ha. unfold PUT_title. now rewrite Hv, Ha.
Qed.

Lemma title_update_needs_user_witness :
  truthy (auth file_env) = false
  /\ PUT_title file_env demo_project_env "p" None
     = (json_error (Some "Unauthorized") 401, []).
Proof.
  split; [reflexivity|].
  apply title_update_needs_user; reflexivity.
Defined.

(** ** The sidebar *)




Example handleSave_failed_rename_keeps_editing :
  handleSave (mkSidebarState (Some "p") "  Renamed  " false) (fun _ _ => false)
  = [ SetIsSubmitting true; OnProjectTitleUpdate "p" "Renamed"; ConsoleError;
      SetIsSubmitting false ].
Proof. reflexivity. Qed.

(** A title of no-break spaces is no title: the editor is closed. *)
Example handleSave_no_break_spaces :
  handleSave (mkSidebarState (Some "p")
                (String "194" (String "160" (String "194" (String "160" ""))))
                false)
             (fun _ _ => true)
  = [ SetEditingProjectId None ].
Proof. reflexivity. Qed.

(** ** Performance monitoring *)

(** X17: monitoring does not change what the operation does: the result
    or the error of the operation is the result or the error of the monitored
    call.  A span that exists is ended exactly once either way; the local
    measurement is ended only on success; an error is logged and reported to
    Sentry once each, and a success is not reported.  No span attribute has
    an empty value. *)
Theorem monitoring_is_transparent E T (context : MonitoringContext)
  (settled : E + T) (span : bool) :
  let (effects, outcome) := withPerformanceMonitoring context settled span in
  outcome = settled
  /\ List.length (filter is_span_end effects) = (if span then 1 else 0)
  /\ List.length (filter is_measurement_end effects)
     = match settled with
       | inl _ => 0
       | inr _ => 1
       end
  /\ filter is_report effects
     = match settled with
       | inl _ => [LogError context; CaptureException context]
       | inr _ => []
       end
  /\ forall name op attributes key value,
       In (StartInactiveSpan name op attributes) effects ->
       In (key, value) attributes -> value <> "".
Proof.
  assert (A : forall key value k v, In (k, v) (attribute key value) -> v <> "").
  { intros key [v0|] k v; simpl; [|tauto].
    destruct (String.eqb_spec v0 ""); simpl; [tauto|].
    intros [[= _ <-]|[]]. assumption. }
  assert (S : forall k v, In (k, v) (span_attributes context) -> v <> "").
  { intros k v H. unfold span_attributes in H.
    repeat (apply in_app_or in H; destruct H as [H|H]); eapply A; eauto. }
  unfold withPerformanceMonitoring.
  destruct settled as [error|result], span; simpl;
    (repeat (split; [reflexivity|]));
    intros name op attributes key value H Hin;
    repeat (destruct H as [H|H]; try discriminate; try contradiction);
    injection H as _ _ <-; eapply S; eauto.
Qed.

(** The three wrappers name the operation and pass everything else on. *)
Lemma wrappers_are_transparent E T (settled : E + T) span op filePath pid action :
  snd (withFileOperationMonitoring op filePath settled span) = settled
  /\ snd (withMarkdownParsingMonitoring pid settled span) = settled
  /\ snd (withMarkdownUpdateMonitoring pid action settled span) = settled.
Proof. destruct settled; repeat split. Qed.
